(** * go-xbee: the XBee API-frame driver, embedded shallowly

    The development follows [xbee.go]: the frame codec ([writeFrame] and the
    head of [readLoop]), the frame-identifier counter and listener registry,
    the reader task's classification and dispatch, the request idioms
    ([atCommand], [NodeDiscover], [ActiveScan], [Transmit]) and the typed
    operations built on them.

    Conventions.
    - A Go [byte] is a [Z] in [0, 256); [uint16], [uint64] and [int] are [Z]
      with the wrap-around written where the source can overflow.  [int] is
      taken to be 64 bits wide (amd64, arm64).
    - A slice is a [list Z]; [s[i]] is [s !! i] and panics when it is [None];
      [s[i:]] panics when [i] exceeds the length.
    - The driver object is the record [XBee]; a method is a function in the
      monad [M], whose results are [Done] (the method returned), [Panic] (a
      run-time panic: nothing recovers, the process ends) and [Blocked] (the
      goroutine waits for ever).
    - The byte stream is part of the state: the buffers handed to
      [port.Write], the outcomes the device gives to successive writes, and
      the bytes still to arrive.  The reader goroutine is run by the blocking
      operations of the caller: a receive lets the reader iterate until the
      channel holds an event. *)

From stdpp Require Import base numbers option list gmap.
From Stdlib Require Import ZArith Lia.

Local Open Scope Z_scope.

(** ** Bytes and fixed-width integers *)

Definition is_byte (b : Z) : Prop := 0 ≤ b < 256.
Definition bytes (l : list Z) : Prop := Forall is_byte l.

Definition u8 (z : Z) : Z := z mod 256.
Definition u16 (z : Z) : Z := z mod 65536.
Definition u64 (z : Z) : Z := z mod 2 ^ 64.

(** [int(x)] for a [uint64] [x], with [int] 64 bits wide. *)
Definition int_of_u64 (z : Z) : Z :=
  if decide (z < 2 ^ 63) then z else z - 2 ^ 64.

(** [checksum += v] over a slice, on a [byte] accumulator. *)
Definition sum8 (l : list Z) : Z := fold_left (λ c v, u8 (c + v)) l 0.

(** [copy(dst[off:], src)]: overwrites as many bytes as fit. *)
Definition copy_at (dst : list Z) (off : nat) (src : list Z) : list Z :=
  take off dst ++ take (length dst - off)%nat src
    ++ drop (off + length src)%nat dst.

(** ** Constants *)

Definition frameDelimiter : Z := 0x7e.
Definition frameATCommand : Z := 0x08.
Definition frameATCommandQueue : Z := 0x09.
Definition frameZigBeeTransmitRequest : Z := 0x10.
Definition frameATCommandResponse : Z := 0x88.
Definition frameModemStatus : Z := 0x8a.
Definition frameZigBeeTransmitStatus : Z := 0x8b.
Definition frameZigBeeReceivePacket : Z := 0x90.

(** [type ATCommand [2]byte] *)
Definition ATCommand : Type := Z * Z.

Definition atSerialNumberHigh : ATCommand := (83, 72).   (* 'S','H' *)
Definition atSerialNumberLow : ATCommand := (83, 76).    (* 'S','L' *)
Definition atAPIEnable : ATCommand := (65, 80).          (* 'A','P' *)
Definition atInterfaceDataRate : ATCommand := (66, 68).  (* 'B','D' *)
Definition atNodeDiscover : ATCommand := (78, 68).       (* 'N','D' *)
Definition atActiveScan : ATCommand := (65, 83).         (* 'A','S' *)

Definition standardDataRates : list Z :=
  [1200; 2400; 4800; 9600; 19200; 38400; 57600; 115200].

Definition CSOK : Z := 0.
Definition CSError : Z := 1.
Definition CSInvalidCommand : Z := 2.
Definition CSInvalidParameter : Z := 3.
Definition CSTxFailure : Z := 4.

(** ** Events *)

Record ATCommandResponse := mkATCommandResponse {
  ATCommand_ : ATCommand;
  CommandStatus : Z;
  Data : list Z
}.

Record TransmitStatus := mkTransmitStatus {
  DestinationAddress : Z;
  RetryCount : Z;
  DeliveryStatus : Z;
  DiscoveryStatus : Z
}.

Record ReceivePacket := mkReceivePacket {
  SourceAddress : Z;
  SourceAddress16 : Z;
  ReceiveOptions : Z;
  PacketData : list Z
}.

(** [type Event interface{}], with the dynamic types the reader produces. *)
Inductive Event :=
  | ModemStatus (status : Z)
  | ATResponseEv (res : ATCommandResponse)
  | TransmitStatusEv (st : TransmitStatus)
  | ReceivePacketEv (pkt : ReceivePacket)
  | UnknownFrame (raw : list Z).

Record Node := mkNode {
  SerialNumber_ : Z;
  NodeID : list Z;
  ParentNetworkAddress : Z;
  DeviceType : Z;
  Status : Z;
  ProfileID : Z;
  ManufacturerID : Z
}.

Record ActiveScanDevice := mkActiveScanDevice {
  Type_ : Z;
  Channel : Z;
  PAN : Z;
  ExtendedPAN : Z;
  AllowJoin : bool;
  StackProfile : Z;
  LQI : Z;
  RSSI : Z
}.

(** ** Errors, panics and diagnostics *)

(** The [error] values of the package: the three variables, the
    [ErrInvalidCommand] string type, one constructor per [fmt.Errorf] or
    [errors.New] call site, and the errors of the byte stream. *)
Inductive error :=
  | ErrInvalidParameter
  | ErrResponse
  | ErrTXFailure
  | ErrInvalidCommand (cmd : ATCommand)
  | ErrValueTooLong (n : Z)            (* atCommand: value too long *)
  | ErrDataTooLong (n : Z)             (* Transmit: data too long *)
  | ErrFrameSize (n : Z)               (* writeFrame: cannot write frame *)
  | ErrWrongFrame (got : Event)        (* expected AT response *)
  | ErrWrongATCommand (want got : ATCommand)
  | ErrUnknownStatus (status : Z)
  | ErrSerialNumberSize (n : Z)
  | ErrNodeFrameShort (n : Z)
  | ErrNoTerminator
  | ErrScanFrameShort (n : Z)
  | ErrIO (code : Z)                   (* an error of the device *)
  | ErrEOF                             (* io.EOF of the byte source *)
  | ErrUnexpectedEOF.                  (* io.ReadFull cut short *)

Inductive panic :=
  | IndexOutOfRange                    (* s[i] or s[i:] beyond len(s) *)
  | SendOnClosedChannel.

Inductive diagnostic :=
  | LogResync (b : Z)
  | LogBadChecksum (c : Z)
  | LogTinyFrame
  | LogInternalChannelFull
  | LogEventChannelFull.

(** Predicate on errors: the caller's buffer exceeds what a frame can carry. *)
Definition is_size_error (e : error) : bool :=
  match e with
  | ErrValueTooLong _ | ErrDataTooLong _ | ErrFrameSize _ => true
  | _ => false
  end.

(** ** The driver state *)

(** The [io.ReadWriter]: [writes] lists the buffers passed to [Write], oldest
    first; [wscript] gives the error code (or [None]) the device answers to
    each coming [Write], and a device whose script is empty accepts every
    write; [inbound] holds the bytes the reader has yet to receive. *)
Record Port := mkPort {
  writes : list (list Z);
  wscript : list (option Z);
  inbound : list Z
}.

(** [idMap] maps a frame id to a reference into [chans], the store of the
    one-slot channels made by [registerListener]; a channel is the list of
    events buffered in it.  [eventCh] is the global channel (capacity 8) and
    [eventClosed] records [close(xb.eventCh)]. *)
Record XBee := mkXBee {
  port : Port;
  wbuf : list Z;
  frameID : Z;
  eventCh : list Event;
  eventClosed : bool;
  idMap : gmap Z nat;
  chans : list (list Event);
  diag : list diagnostic
}.

Definition set_port (p : Port) (xb : XBee) : XBee :=
  mkXBee p (wbuf xb) (frameID xb) (eventCh xb) (eventClosed xb)
         (idMap xb) (chans xb) (diag xb).
Definition set_wbuf (w : list Z) (xb : XBee) : XBee :=
  mkXBee (port xb) w (frameID xb) (eventCh xb) (eventClosed xb)
         (idMap xb) (chans xb) (diag xb).
Definition set_frameID (f : Z) (xb : XBee) : XBee :=
  mkXBee (port xb) (wbuf xb) f (eventCh xb) (eventClosed xb)
         (idMap xb) (chans xb) (diag xb).
Definition set_eventCh (c : list Event) (xb : XBee) : XBee :=
  mkXBee (port xb) (wbuf xb) (frameID xb) c (eventClosed xb)
         (idMap xb) (chans xb) (diag xb).
Definition set_eventClosed (b : bool) (xb : XBee) : XBee :=
  mkXBee (port xb) (wbuf xb) (frameID xb) (eventCh xb) b
         (idMap xb) (chans xb) (diag xb).
Definition set_idMap (m : gmap Z nat) (xb : XBee) : XBee :=
  mkXBee (port xb) (wbuf xb) (frameID xb) (eventCh xb) (eventClosed xb)
         m (chans xb) (diag xb).
Definition set_chans (c : list (list Event)) (xb : XBee) : XBee :=
  mkXBee (port xb) (wbuf xb) (frameID xb) (eventCh xb) (eventClosed xb)
         (idMap xb) c (diag xb).
Definition log (d : diagnostic) (xb : XBee) : XBee :=
  mkXBee (port xb) (wbuf xb) (frameID xb) (eventCh xb) (eventClosed xb)
         (idMap xb) (chans xb) (diag xb ++ [d]).

(** [xb.wbuf[i] = v].  The buffer keeps the length [Open] gave it, so every
    index the methods use is in range (see [wf]). *)
Definition poke (i : nat) (v : Z) (xb : XBee) : XBee :=
  set_wbuf (<[i := v]> (wbuf xb)) xb.

(** ** The monad of methods *)

Inductive Result (A : Type) :=
  | Done (a : A) (xb : XBee)
  | Panic (p : panic)
  | Blocked (xb : XBee).
Arguments Done {A} a xb.
Arguments Panic {A} p.
Arguments Blocked {A} xb.

Definition M (A : Type) : Type := XBee → Result A.

Global Instance M_ret : MRet M := λ A a xb, Done a xb.

Global Instance M_bind : MBind M := λ A B k m xb,
  match m xb with
  | Done a xb' => k a xb'
  | Panic p => Panic p
  | Blocked xb' => Blocked xb'
  end.

Definition modify (f : XBee → XBee) : M unit := λ xb, Done tt (f xb).
Definition gets {A} (f : XBee → A) : M A := λ xb, Done (f xb) xb.
Definition panicM {A} (p : panic) : M A := λ _, Panic p.

(** [defer f()]: [f] runs when the body returns; a goroutine that never
    leaves the body never runs it, and after a panic the process is gone. *)
Definition defer {A} (f : XBee → XBee) (body : M A) : M A := λ xb,
  match body xb with
  | Done a xb' => Done a (f xb')
  | Panic p => Panic p
  | Blocked xb' => Blocked xb'
  end.

(** ** Open and Close *)

Definition wbufLen : nat := Z.to_nat (65535 + 4).

Definition Open (device : Port) : XBee :=
  mkXBee device (frameDelimiter :: replicate (wbufLen - 1) 0) 0
         [] false ∅ [] [].

Definition Close (xb : XBee) : XBee := set_eventClosed true xb.

(** ** Frame identifiers and the listener registry *)

Definition nextFrameID : M Z :=
  modify (λ xb, set_frameID (u8 (frameID xb + 1)) xb);;
  modify (λ xb, if decide (frameID xb = 0) then set_frameID 1 xb else xb);;
  gets frameID.

Definition registerListener (id : Z) : M nat := λ xb,
  let ch := length (chans xb) in
  Done ch (set_idMap (<[id := ch]> (idMap xb)) (set_chans (chans xb ++ [[]]) xb)).

Definition unregisterListener (id : Z) (xb : XBee) : XBee :=
  set_idMap (delete id (idMap xb)) xb.

(** ** Writing a frame *)

Definition portWrite (buf : list Z) : M (option error) := λ xb,
  let p := port xb in
  match wscript p with
  | [] => Done None (set_port (mkPort (writes p ++ [buf]) [] (inbound p)) xb)
  | r :: rest =>
      Done (ErrIO <$> r)
           (set_port (mkPort (writes p ++ [buf]) rest (inbound p)) xb)
  end.

Definition writeFrame (n : Z) : M (option error) :=
  if decide (n < 0 ∨ n > 65535) then mret (Some (ErrFrameSize n))
  else
    modify (poke 1 (u8 (Z.shiftr n 8)));;
    modify (poke 2 (u8 (Z.land n 0xff)));;
    modify (λ xb,
      let checksum := sum8 (take (Z.to_nat n) (drop 3 (wbuf xb))) in
      poke (3 + Z.to_nat n) (u8 (0xff - checksum)) xb);;
    buf ← gets (λ xb, take (4 + Z.to_nat n) (wbuf xb));
    portWrite buf.

(** ** The reader task *)

(** [io.ReadFull(rd, buf)] for a buffer of [n] bytes. *)
Definition readFull (n : nat) (input : list Z) : error + list Z * list Z :=
  if decide (n ≤ length input)%nat then inr (take n input, drop n input)
  else match input with
       | [] => inl ErrEOF
       | _ => inl ErrUnexpectedEOF
       end.

(** What one iteration of [readLoop] makes of the bytes it consumes, up to
    the point where the frame is classified. *)
Inductive frameRead :=
  | ReadError (e : error)
  | Resync (b : Z) (rest : list Z)
  | BadChecksum (c : Z) (rest : list Z)
  | TinyFrame (rest : list Z)
  | GotFrame (buf : list Z) (rest : list Z).

Definition readFrame (input : list Z) : frameRead :=
  match input with
  | [] => ReadError ErrEOF
  | b :: input =>
      if decide (b ≠ frameDelimiter) then Resync b input
      else
        match readFull 2 input with
        | inl e => ReadError e
        | inr (hdr, input) =>
            let frameLen :=
              Z.lor (Z.shiftl (default 0 (hdr !! 0%nat)) 8)
                    (default 0 (hdr !! 1%nat)) in
            match readFull (Z.to_nat (frameLen + 1)) input with
            | inl e => ReadError e
            | inr (buf, input) =>
                let checksum := sum8 buf in
                if decide (checksum ≠ 0xff) then BadChecksum checksum input
                else if decide (frameLen < 2) then TinyFrame input
                else GotFrame (take (length buf - 1) buf) input
            end
        end
  end.

(** [s[i:]] *)
Definition sliceFrom (i : nat) (s : list Z) : option (list Z) :=
  if decide (i ≤ length s)%nat then Some (drop i s) else None.

(** The [switch buf[0]] of [readLoop]: the frame id (0 when the kind carries
    none) and the event; [None] is an index out of range. *)
Definition classify (buf : list Z) : option (Z * Event) :=
  kind ← buf !! 0%nat;
  if decide (kind = frameModemStatus) then
    st ← buf !! 1%nat;
    Some (0, ModemStatus st)
  else if decide (kind = frameATCommandResponse) then
    id ← buf !! 1%nat;
    c0 ← buf !! 2%nat;
    c1 ← buf !! 3%nat;
    st ← buf !! 4%nat;
    data ← sliceFrom 5 buf;
    Some (id, ATResponseEv (mkATCommandResponse (c0, c1) st data))
  else if decide (kind = frameZigBeeTransmitStatus) then
    id ← buf !! 1%nat;
    a0 ← buf !! 2%nat;
    a1 ← buf !! 3%nat;
    rc ← buf !! 4%nat;
    dl ← buf !! 5%nat;
    ds ← buf !! 6%nat;
    Some (id, TransmitStatusEv
                (mkTransmitStatus (Z.lor (u16 (Z.shiftl a0 8)) a1) rc dl ds))
  else if decide (kind = frameZigBeeReceivePacket) then
    b1 ← buf !! 1%nat; b2 ← buf !! 2%nat; b3 ← buf !! 3%nat;
    b4 ← buf !! 4%nat; b5 ← buf !! 5%nat; b6 ← buf !! 6%nat;
    b7 ← buf !! 7%nat; b8 ← buf !! 8%nat;
    n0 ← buf !! 9%nat; n1 ← buf !! 10%nat;
    opt ← buf !! 11%nat;
    data ← sliceFrom 12 buf;
    Some (0, ReceivePacketEv
               (mkReceivePacket
                  (Z.lor (Z.lor (Z.lor (Z.lor (Z.lor (Z.lor (Z.lor
                     (u64 (Z.shiftl b1 56)) (u64 (Z.shiftl b2 48)))
                     (u64 (Z.shiftl b3 40))) (u64 (Z.shiftl b4 32)))
                     (u64 (Z.shiftl b5 24))) (u64 (Z.shiftl b6 16)))
                     (u64 (Z.shiftl b7 8))) b8)
                  (Z.lor (u16 (Z.shiftl n0 8)) n1) opt data))
  else Some (0, UnknownFrame buf).

(** [select { case ch <- ev: default: }] on a channel of capacity [cap]
    holding [q]: the new contents, or [None] when the send cannot proceed. *)
Definition trySend (cap : nat) (q : list Event) (ev : Event)
  : option (list Event) :=
  if decide (length q < cap)%nat then Some (q ++ [ev]) else None.

(** The tail of the iteration: look the frame id up and hand the event
    over without blocking.  A send on the closed [eventCh] panics. *)
Definition dispatch (frameID : Z) (ev : Event) : M unit := λ xb,
  let ch := if decide (frameID ≠ 0) then idMap xb !! frameID else None in
  match ch with
  | Some c =>
      match chans xb !! c ≫= λ q, trySend 1 q ev with
      | Some q' => Done tt (set_chans (<[c := q']> (chans xb)) xb)
      | None => Done tt (log LogInternalChannelFull xb)
      end
  | None =>
      if eventClosed xb then Panic SendOnClosedChannel
      else match trySend 8 (eventCh xb) ev with
           | Some q' => Done tt (set_eventCh q' xb)
           | None => Done tt (log LogEventChannelFull xb)
           end
  end.

Definition set_inbound (input : list Z) (xb : XBee) : XBee :=
  set_port (mkPort (writes (port xb)) (wscript (port xb)) input) xb.

(** One pass through the body of the [for] of [readLoop]: [Some e] when
    [readLoop] returns [e], [None] when it goes round again.  The read buffer
    is either handed to the event or overwritten by the next frame before
    anything reads it, so each pass is modelled with a buffer of its own. *)
Definition readIteration : M (option error) := λ xb,
  match readFrame (inbound (port xb)) with
  | ReadError e => Done (Some e) (set_inbound [] xb)
  | Resync b rest => Done None (log (LogResync b) (set_inbound rest xb))
  | BadChecksum c rest =>
      Done None (log (LogBadChecksum c) (set_inbound rest xb))
  | TinyFrame rest => Done None (log LogTinyFrame (set_inbound rest xb))
  | GotFrame buf rest =>
      match classify buf with
      | None => Panic IndexOutOfRange
      | Some (id, ev) => (dispatch id ev;; mret None) (set_inbound rest xb)
      end
  end.

(** [readLoop] itself.  Every pass that does not return consumes a byte, so
    on the bytes of [inbound] the loop makes at most [length inbound] passes
    before the source reports end of file. *)
Fixpoint readLoop_ (fuel : nat) : M error :=
  match fuel with
  | O => λ xb, Blocked xb
  | S fuel =>
      r ← readIteration;
      match r with
      | Some e => mret e
      | None => readLoop_ fuel
      end
  end.

Definition readLoop : M error := λ xb,
  readLoop_ (S (length (inbound (port xb)))) xb.

(** ** Blocking on a channel *)

(** [<-ch] when the channel holds an event. *)
Definition takeEvent (ch : nat) : M (option Event) := λ xb,
  match chans xb !! ch with
  | Some (ev :: q) => Done (Some ev) (set_chans (<[ch := q]> (chans xb)) xb)
  | _ => Done None xb
  end.

(** One turn of a goroutine that waits on [ch]: it takes the event that is
    there, or else the reader makes one pass. *)
Definition turn (ch : nat) : M (option Event) :=
  o ← takeEvent ch;
  match o with
  | Some ev => mret (Some ev)
  | None => readIteration;; mret None
  end.

(** [ev := <-ch].  Once the reader has returned nothing can fill the
    channel, and the receive blocks for ever; [length inbound + 1] passes
    bring the reader to its end. *)
Fixpoint recv_ (fuel : nat) (ch : nat) : M Event :=
  match fuel with
  | O => λ xb, Blocked xb
  | S fuel =>
      o ← turn ch;
      match o with
      | Some ev => mret ev
      | None => recv_ fuel ch
      end
  end.

Definition recv (ch : nat) : M Event := λ xb,
  recv_ (2 + length (inbound (port xb))) ch xb.

(** ** AT commands *)

Definition decodeUint (b : list Z) : Z :=
  fold_left (λ v b, Z.lor (u64 (Z.shiftl v 8)) b) b 0.

(** [binary.BigEndian.Uint32(b)]; it panics on fewer than four bytes. *)
Definition BigEndianUint32 (b : list Z) : option Z :=
  b3 ← b !! 3%nat; b2 ← b !! 2%nat; b1 ← b !! 1%nat; b0 ← b !! 0%nat;
  Some (Z.lor (Z.lor (Z.lor b3 (Z.shiftl b2 8)) (Z.shiftl b1 16))
              (Z.shiftl b0 24)).

Definition validateATResponse (cmd : ATCommand) (res : ATCommandResponse)
  : option error :=
  if decide (ATCommand_ res ≠ cmd) then
    Some (ErrWrongATCommand cmd (ATCommand_ res))
  else if decide (CommandStatus res = CSOK) then None
  else if decide (CommandStatus res = CSError) then Some ErrResponse
  else if decide (CommandStatus res = CSInvalidCommand) then
    Some (ErrInvalidCommand cmd)
  else if decide (CommandStatus res = CSInvalidParameter) then
    Some ErrInvalidParameter
  else Some (ErrUnknownStatus (CommandStatus res)).

(** The four header bytes of an AT command frame, written into [wbuf]. *)
Definition putATHeader (frameID : Z) (cmd : ATCommand) : M unit :=
  modify (poke 3 frameATCommand);;
  modify (poke 4 frameID);;
  modify (poke 5 cmd.1);;
  modify (poke 6 cmd.2).

Definition atCommand (cmd : ATCommand) (val : list Z)
  : M (list Z * option error) :=
  if decide (Z.of_nat (length val) > 65536 - 8) then
    mret ([], Some (ErrValueTooLong (Z.of_nat (length val))))
  else
    frameID ← nextFrameID;
    putATHeader frameID cmd;;
    (if decide (length val ≠ 0%nat)
     then modify (λ xb, set_wbuf (copy_at (wbuf xb) 7 val) xb)
     else mret tt);;
    ch ← registerListener frameID;
    defer (unregisterListener frameID)
      (err ← writeFrame (4 + Z.of_nat (length val));
       match err with
       | Some e => mret ([], Some e)
       | None =>
           ev ← recv ch;
           match ev with
           | ATResponseEv res =>
               match validateATResponse cmd res with
               | Some e => mret ([], Some e)
               | None => mret (Data res, None)
               end
           | _ => mret ([], Some (ErrWrongFrame ev))
           end
       end).

Definition SerialNumber : M (Z * option error) :=
  '(res, err) ← atCommand atSerialNumberHigh [];
  match err with
  | Some e => mret (0, Some e)
  | None =>
      if decide (length res ≠ 4%nat) then
        mret (0, Some (ErrSerialNumberSize (Z.of_nat (length res))))
      else
        match BigEndianUint32 res with
        | None => panicM IndexOutOfRange
        | Some hi =>
            let serial := u64 (Z.shiftl hi 32) in
            '(res, err) ← atCommand atSerialNumberLow [];
            match err with
            | Some e => mret (0, Some e)
            | None =>
                if decide (length res ≠ 4%nat) then
                  mret (0, Some (ErrSerialNumberSize (Z.of_nat (length res))))
                else
                  match BigEndianUint32 res with
                  | None => panicM IndexOutOfRange
                  | Some lo => mret (Z.lor serial lo, None)
                  end
            end
        end
  end.

Definition InterfaceDataRate : M (Z * option error) :=
  '(b, err) ← atCommand atInterfaceDataRate [];
  match err with
  | Some e => mret (0, Some e)
  | None =>
      let rate := decodeUint b in
      if decide (rate ≤ 7) then
        match standardDataRates !! Z.to_nat rate with
        | Some r => mret (r, None)
        | None => panicM IndexOutOfRange
        end
      else mret (int_of_u64 rate, None)
  end.

Definition APIEnabled : M (bool * option error) :=
  '(b, err) ← atCommand atAPIEnable [];
  match b !! 0%nat with
  | None => panicM IndexOutOfRange
  | Some b0 => mret (bool_decide (b0 = 2), err)
  end.

(** ** Gathering requests *)

(** [bytes.IndexByte(s, c)]; [None] stands for -1. *)
Definition IndexByte (s : list Z) (c : Z) : option nat :=
  fst <$> list_find (λ b, b = c) s.

(** [int8(b)] *)
Definition int8_of_byte (b : Z) : Z := if decide (b < 128) then b else b - 256.

(** What the body of a gathering loop does with the event it received. *)
Inductive gathered (A : Type) :=
  | Next (a : A)                            (* appended; the loop goes on *)
  | Return (records : list A) (err : error) (* a return statement *)
  | Crash (p : panic).
Arguments Next {A} a.
Arguments Return {A} records err.
Arguments Crash {A} p.

(** The record part of the loop body of [NodeDiscover], from the length
    check to the fields read at fixed offsets after the terminator. *)
Definition parseNode (nodes : list Node) (data : list Z) : gathered Node :=
  if decide (length data < 18)%nat then
    Return nodes (ErrNodeFrameShort (Z.of_nat (length data)))
  else
    let serial := decodeUint (take 8 (drop 2 data)) in
    let data := drop 10 data in
    match IndexByte data 0 with
    | None => Return nodes ErrNoTerminator
    | Some ix =>
        let nodeID := take ix data in
        let data := drop (ix + 1) data in
        match
          d0 ← data !! 0%nat; d1 ← data !! 1%nat;
          d2 ← data !! 2%nat; d3 ← data !! 3%nat;
          d4 ← data !! 4%nat; d5 ← data !! 5%nat;
          d6 ← data !! 6%nat; d7 ← data !! 7%nat;
          Some (mkNode serial nodeID
                  (Z.lor (u16 (Z.shiftl d0 8)) d1) d2 d3
                  (Z.lor (u16 (Z.shiftl d4 8)) d5)
                  (Z.lor (u16 (Z.shiftl d6 8)) d7))
        with
        | Some n => Next n
        | None => Crash IndexOutOfRange
        end
    end.

(** The body of the loop of [NodeDiscover] below the [select]: the type
    assertion, which returns [nil] with its error, the validation and the
    record. *)
Definition nodeOfEvent (nodes : list Node) (ev : Event) : gathered Node :=
  match ev with
  | ATResponseEv res =>
      match validateATResponse atNodeDiscover res with
      | Some e => Return nodes e
      | None => parseNode nodes (Data res)
      end
  | _ => Return [] (ErrWrongFrame ev)
  end.

(** The same for [ActiveScan]: a record of at least 16 bytes, read at fixed
    offsets. *)
Definition parseScan (devices : list ActiveScanDevice) (data : list Z)
  : gathered ActiveScanDevice :=
  if decide (length data < 16)%nat then
    Return devices (ErrScanFrameShort (Z.of_nat (length data)))
  else
    match
      ty ← data !! 0%nat; chn ← data !! 1%nat;
      aj ← data !! 12%nat; sp ← data !! 13%nat;
      lqi ← data !! 14%nat; rssi ← data !! 15%nat;
      Some (mkActiveScanDevice ty chn
              (u16 (decodeUint (take 2 (drop 2 data))))
              (decodeUint (take 8 (drop 4 data)))
              (bool_decide (aj ≠ 0)) sp lqi (int8_of_byte rssi))
    with
    | Some d => Next d
    | None => Crash IndexOutOfRange
    end.

Definition scanOfEvent (devices : list ActiveScanDevice) (ev : Event)
  : gathered ActiveScanDevice :=
  match ev with
  | ATResponseEv res =>
      match validateATResponse atActiveScan res with
      | Some e => Return devices e
      | None => parseScan devices (Data res)
      end
  | _ => Return [] (ErrWrongFrame ev)
  end.

(** The [for { select { case <-waitCh: ... case ev = <-ch: } ... }] of both
    gathering requests.  The duration [wait] is counted in turns of the
    waiting goroutine: the timer fires when none is left, and in each turn
    before that the caller takes the event in its channel or the reader makes
    a pass. *)
Fixpoint gather {A} (body : list A → Event → gathered A)
    (wait : nat) (ch : nat) (acc : list A) : M (list A * option error) :=
  match wait with
  | O => mret (acc, None)
  | S wait =>
      o ← turn ch;
      match o with
      | None => gather body wait ch acc
      | Some ev =>
          match body acc ev with
          | Next a => gather body wait ch (acc ++ [a])
          | Return records e => mret (records, Some e)
          | Crash p => panicM p
          end
      end
  end.

(** [NodeDiscover] and [ActiveScan] are the same text up to the AT
    identifier and to what the loop makes of a response: the frame id, the
    header, the listener with its deferred removal, the frame of 4 bytes, and
    then the loop, which starts with no record. *)
Definition gatherRequest {A} (cmd : ATCommand)
    (body : list A → Event → gathered A) (wait : nat)
  : M (list A * option error) :=
  frameID ← nextFrameID;
  putATHeader frameID cmd;;
  ch ← registerListener frameID;
  defer (unregisterListener frameID)
    (err ← writeFrame 4;
     match err with
     | Some e => mret ([], Some e)
     | None => gather body wait ch []
     end).

Definition NodeDiscover (wait : nat) : M (list Node * option error) :=
  gatherRequest atNodeDiscover nodeOfEvent wait.


(** ** Transmit *)

Definition Transmit (dest net broadcastRadius options : Z) (data : list Z)
  : M (option error) :=
  if decide (Z.of_nat (length data) > 65536 - 20) then
    mret (Some (ErrDataTooLong (Z.of_nat (length data))))
  else
    frameID ← nextFrameID;
    modify (poke 3 frameZigBeeTransmitRequest);;
    modify (poke 4 frameID);;
    modify (poke 5 (u8 (Z.shiftr dest 56)));;
    modify (poke 6 (u8 (Z.shiftr dest 48)));;
    modify (poke 7 (u8 (Z.shiftr dest 40)));;
    modify (poke 8 (u8 (Z.shiftr dest 32)));;
    modify (poke 9 (u8 (Z.shiftr dest 24)));;
    modify (poke 10 (u8 (Z.shiftr dest 16)));;
    modify (poke 11 (u8 (Z.shiftr dest 8)));;
    modify (poke 12 (u8 (Z.land dest 0xff)));;
    modify (poke 13 (u8 (Z.shiftr net 8)));;
    modify (poke 14 (u8 (Z.land net 0xff)));;
    modify (poke 15 broadcastRadius);;
    modify (poke 16 options);;
    modify (λ xb, set_wbuf (copy_at (wbuf xb) 17 data) xb);;
    writeFrame (14 + Z.of_nat (length data)).

(** ** The other typed operations *)

Definition atNodeIdentifier : ATCommand := (78, 73).         (* 'N','I' *)
Definition atDeviceTypeIdentifier : ATCommand := (68, 68).   (* 'D','D' *)
Definition atFirmwareVersion : ATCommand := (86, 82).        (* 'V','R' *)
Definition atHardwareVersion : ATCommand := (72, 86).        (* 'H','V' *)
Definition atAssociationIndication : ATCommand := (65, 73).  (* 'A','I' *)
Definition atExtendedPANID : ATCommand := (73, 68).          (* 'I','D' *)
Definition atOperatingExtendedPANID : ATCommand := (79, 80). (* 'O','P' *)
Definition atMaximumRFPayloadBytes : ATCommand := (78, 80).  (* 'N','P' *)
Definition atEncryptionEnabled : ATCommand := (69, 69).      (* 'E','E' *)
Definition atEncryptionOptions : ATCommand := (69, 79).      (* 'E','O' *)
Definition atNetworkEncryptionKey : ATCommand := (78, 75).   (* 'N','K' *)
Definition atLinkKey : ATCommand := (75, 89).                (* 'K','Y' *)
Definition atNodeDiscoveryTimeout : ATCommand := (78, 84).   (* 'N','T' *)
Definition atNodeDiscoveryOptions : ATCommand := (78, 79).   (* 'N','O' *)
Definition atWrite : ATCommand := (87, 82).                  (* 'W','R' *)

Definition u32 (z : Z) : Z := z mod 2 ^ 32.

(** A signed 64-bit result ([int], [time.Duration]) of an operation that can
    overflow. *)
Definition int64 (z : Z) : Z := (z + 2 ^ 63) mod 2 ^ 64 - 2 ^ 63.

(** The errors of these operations: those of the driver, passed on as they
    are, and one constructor for each [fmt.Errorf] of their own. *)
Inductive opError :=
  | Driver (e : error)
  | ErrFirmwareVersionSize (n : Z)
  | ErrHardwareVersionSize (n : Z)
  | ErrKeySize (bits : Z).

Definition NodeIdentifier : M (list Z * option error) :=
  atCommand atNodeIdentifier [].

(** A Go string is its bytes. *)
Definition SetNodeIdentifier (ni : list Z) : M (option error) :=
  let ni := if decide (20 < length ni)%nat then take 20 ni else ni in
  '(_, err) ← atCommand atNodeIdentifier ni;
  mret err.

Definition DeviceTypeIdentifier : M (Z * option error) :=
  '(b, err) ← atCommand atDeviceTypeIdentifier [];
  match err with
  | Some e => mret (0, Some e)
  | None =>
      mret (fold_left (λ did b, Z.lor (u32 (Z.shiftl did 8)) b) b 0, None)
  end.

Definition FirmwareVersion : M (Z * option opError) :=
  '(b, err) ← atCommand atFirmwareVersion [];
  match err with
  | Some e => mret (0, Some (Driver e))
  | None =>
      if decide (length b ≠ 2%nat) then
        mret (0, Some (ErrFirmwareVersionSize (Z.of_nat (length b))))
      else
        match b0 ← b !! 0%nat; b1 ← b !! 1%nat;
              Some (Z.lor (u16 (Z.shiftl b0 8)) b1) with
        | Some v => mret (v, None)
        | None => panicM IndexOutOfRange
        end
  end.

Definition HardwareVersion : M (Z * option opError) :=
  '(b, err) ← atCommand atHardwareVersion [];
  match err with
  | Some e => mret (0, Some (Driver e))
  | None =>
      if decide (length b ≠ 2%nat) then
        mret (0, Some (ErrHardwareVersionSize (Z.of_nat (length b))))
      else
        match b0 ← b !! 0%nat; b1 ← b !! 1%nat;
              Some (Z.lor (u16 (Z.shiftl b0 8)) b1) with
        | Some v => mret (v, None)
        | None => panicM IndexOutOfRange
        end
  end.

Definition AssociationIndication : M (Z * option error) :=
  '(b, err) ← atCommand atAssociationIndication [];
  match err with
  | Some e => mret (0, Some e)
  | None => mret (int_of_u64 (decodeUint b), None)
  end.

(** The four bytes [SetInterfaceDataRate] sends: the index of a standard
    rate, or else the rate. *)
Definition SetInterfaceDataRate (baud : Z) : M (option error) :=
  let si :=
    match list_find (λ b, b = baud) standardDataRates with
    | Some (i, _) => Z.of_nat i
    | None => -1
    end in
  let si := if decide (si < 0) then baud else si in
  let buf := [u8 (Z.shiftr si 24); u8 (Z.shiftr si 16); u8 (Z.shiftr si 8);
              u8 (Z.land si 0xff)] in
  '(_, err) ← atCommand atInterfaceDataRate buf;
  mret err.

Definition ExtendedPANID : M (Z * option error) :=
  '(b, err) ← atCommand atExtendedPANID [];
  match err with
  | Some e => mret (0, Some e)
  | None => mret (decodeUint b, None)
  end.

Definition SetExtendedPANID (id : Z) : M (option error) :=
  let b := [u8 (Z.shiftr id 56); u8 (Z.shiftr id 48); u8 (Z.shiftr id 40);
            u8 (Z.shiftr id 32); u8 (Z.shiftr id 24); u8 (Z.shiftr id 16);
            u8 (Z.shiftr id 8); u8 (Z.land id 0xff)] in
  '(_, err) ← atCommand atExtendedPANID b;
  mret err.

Definition OperatingExtendedPANID : M (Z * option error) :=
  '(b, err) ← atCommand atOperatingExtendedPANID [];
  match err with
  | Some e => mret (0, Some e)
  | None => mret (decodeUint b, None)
  end.

Definition MaximumRFPayloadBytes : M (Z * option error) :=
  '(b, err) ← atCommand atMaximumRFPayloadBytes [];
  match err with
  | Some e => mret (0, Some e)
  | None => mret (int_of_u64 (decodeUint b), None)
  end.

Definition EncryptionEnabled : M (bool * option error) :=
  '(b, err) ← atCommand atEncryptionEnabled [];
  match err with
  | Some e => mret (false, Some e)
  | None =>
      (* len(b) != 0 && b[0] != 0 *)
      match b with
      | [] => mret (false, None)
      | b0 :: _ => mret (bool_decide (b0 ≠ 0), None)
      end
  end.

Definition SetEncryptionEnabled (enabled : bool) : M (option error) :=
  let b := [if enabled then 1 else 0] in
  '(_, err) ← atCommand atEncryptionEnabled b;
  mret err.

Definition EncryptionOptions : M (Z * option error) :=
  '(b, err) ← atCommand atEncryptionOptions [];
  match err with
  | Some e => mret (0, Some e)
  | None => mret (int_of_u64 (decodeUint b), None)
  end.

Definition SetEncryptionOptions (opt : Z) : M (option error) :=
  '(_, err) ← atCommand atEncryptionOptions [u8 opt];
  mret err.

Definition SetNetworkEncryptionKey (key : list Z) : M (option opError) :=
  if decide (length key = 0%nat) then
    '(_, err) ← atCommand atNetworkEncryptionKey (replicate 16 0);
    mret (Driver <$> err)
  else if decide (length key ≠ 16%nat) then
    mret (Some (ErrKeySize (Z.of_nat (length key) * 8)))
  else
    '(_, err) ← atCommand atNetworkEncryptionKey key;
    mret (Driver <$> err).

Definition SetLinkKey (key : list Z) : M (option opError) :=
  if decide (length key ≠ 16%nat) then
    mret (Some (ErrKeySize (Z.of_nat (length key) * 8)))
  else
    '(_, err) ← atCommand atLinkKey key;
    mret (Driver <$> err).

(** [time.Duration(decodeUint(b)) * 100 * time.Millisecond], in nanoseconds. *)
Definition NodeDiscoveryTimeout : M (Z * option error) :=
  '(b, err) ← atCommand atNodeDiscoveryTimeout [];
  match err with
  | Some e => mret (0, Some e)
  | None =>
      mret (int64 (int64 (int_of_u64 (decodeUint b) * 100) * 1000000), None)
  end.

Definition NodeDiscoveryOptions : M (Z * option error) :=
  '(b, err) ← atCommand atNodeDiscoveryOptions [];
  match err with
  | Some e => mret (0, Some e)
  | None => mret (int_of_u64 (decodeUint b), None)
  end.

Definition SetNodeDiscoveryOptions (o : Z) : M (option error) :=
  '(_, err) ← atCommand atNodeDiscoveryOptions [u8 o];
  mret err.

Definition Write : M (option error) :=
  '(_, err) ← atCommand atWrite [];
  mret err.

(** ** Well-formed driver states *)

(** What [Open] establishes and every method keeps: the scratch buffer has
    its 65539 slots and starts with the delimiter, the counter is a byte, and
    the registry refers to channels that exist. *)
Record wf (xb : XBee) : Prop := mkWf {
  wf_len : length (wbuf xb) = wbufLen;
  wf_delim : wbuf xb !! 0%nat = Some frameDelimiter;
  wf_frameID : is_byte (frameID xb);
  wf_idMap : ∀ id c, idMap xb !! id = Some c → (c < length (chans xb))%nat
}.

(** ** Drivers used to state the properties *)

(** The bytes of a frame on the wire, as the protocol lays them out:
    delimiter, length (big-endian), payload, checksum. *)
Definition frame (payload : list Z) : list Z :=
  let n := Z.of_nat (length payload) in
  frameDelimiter :: u8 (Z.shiftr n 8) :: u8 (Z.land n 0xff)
    :: payload ++ [u8 (0xff - sum8 payload)].

(** The payload of a ZigBee transmit request as the protocol lays it out:
    kind, frame id, 64-bit and 16-bit destination (big-endian), broadcast
    radius, options, data. *)
Definition transmitPayload (id dest net radius opts : Z) (data : list Z)
  : list Z :=
  [frameZigBeeTransmitRequest; id;
   u8 (Z.shiftr dest 56); u8 (Z.shiftr dest 48); u8 (Z.shiftr dest 40);
   u8 (Z.shiftr dest 32); u8 (Z.shiftr dest 24); u8 (Z.shiftr dest 16);
   u8 (Z.shiftr dest 8); u8 (Z.land dest 0xff);
   u8 (Z.shiftr net 8); u8 (Z.land net 0xff); radius; opts] ++ data.

(** The identifier that [nextFrameID] returns when the counter holds [f]. *)
Definition nextID (f : Z) : Z :=
  if decide (u8 (f + 1) = 0) then 1 else u8 (f + 1).

(** The answer of the device to the next [Write]. *)
Definition nextAnswer (xb : XBee) : option error :=
  match wscript (port xb) with
  | [] => None
  | r :: _ => ErrIO <$> r
  end.

(** The plain sum of the bytes of a payload. *)
Definition byteSum (l : list Z) : Z := foldr Z.add 0 l.

(** The reader handed [ev] to the waiter behind [ch], by its non-blocking
    send: the event is appended when the slot is free, every other channel
    and the global one are as they were. *)
Definition toWaiter (ch : nat) (ev : Event) (xb xb' : XBee) : Prop :=
  eventCh xb' = eventCh xb ∧
  ∃ q, chans xb !! ch = Some q ∧
       chans xb' =
         <[ch := if decide (length q < 1)%nat then q ++ [ev] else q]>
           (chans xb).

(** The reader handed [ev] to the global event channel, by its non-blocking
    send: the event is appended when fewer than 8 are waiting, and no
    waiter's channel changes. *)
Definition toGlobal (ev : Event) (xb xb' : XBee) : Prop :=
  chans xb' = chans xb ∧
  eventCh xb' =
    if decide (length (eventCh xb) < 8)%nat then eventCh xb ++ [ev]
    else eventCh xb.

(** Identifiers returned one after the other, [p] being the one before. *)
Fixpoint chain (p : Z) (ids : list Z) : Prop :=
  match ids with
  | [] => True
  | a :: ids => a ≠ 0 ∧ a ≠ p ∧ (p = 255 → a = 1) ∧ chain a ids
  end.

(** [n] successive calls of [nextFrameID], with the identifiers in the order
    they were returned. *)
Fixpoint allocate (n : nat) : M (list Z) :=
  match n with
  | O => mret []
  | S n => id ← nextFrameID; ids ← allocate n; mret (id :: ids)
  end.

(** The state after the device was handed [buf]. *)
Definition wrote (buf : list Z) (xb : XBee) : XBee :=
  set_port (mkPort (writes (port xb) ++ [buf]) (tail (wscript (port xb)))
                   (inbound (port xb))) xb.

(** The scratch buffer once [writeFrame n] has filled in the length and the
    checksum. *)
Definition framed (n : nat) (w : list Z) : list Z :=
  <[(3 + n)%nat := u8 (0xff - sum8 (take n (drop 3 w)))]>
    (<[2%nat := u8 (Z.land (Z.of_nat n) 0xff)]>
       (<[1%nat := u8 (Z.shiftr (Z.of_nat n) 8)]> w)).

(** What a run returned, and the buffers the device had been handed when it
    ended. *)
Definition value {A} (r : Result A) : option A :=
  match r with
  | Done a _ => Some a
  | _ => None
  end.

Definition written {A} (r : Result A) : list (list Z) :=
  match r with
  | Done _ xb | Blocked xb => writes (port xb)
  | Panic _ => []
  end.

Definition final {A} (r : Result A) : XBee :=
  match r with
  | Done _ xb | Blocked xb => xb
  | Panic _ => Open (mkPort [] [] [])
  end.

(** What the reader goroutine leaves alone while a caller waits: the device's
    record of writes and its answers, the scratch buffer, the counter, the
    registry, the closed flag and the number of channels made so far. *)
Record stable (xb xb' : XBee) : Prop := mkStable {
  st_writes : writes (port xb') = writes (port xb);
  st_wscript : wscript (port xb') = wscript (port xb);
  st_wbuf : wbuf xb' = wbuf xb;
  st_frameID : frameID xb' = frameID xb;
  st_idMap : idMap xb' = idMap xb;
  st_closed : eventClosed xb' = eventClosed xb;
  st_chans : length (chans xb') = length (chans xb)
}.

(** The channel behind [ch] holds no event. *)
Definition idle (ch : nat) (xb : XBee) : Prop :=
  takeEvent ch xb = Done None xb.

(** What [atCommand] does once the frame is with the device. *)
Definition awaitResponse (cmd : ATCommand) (ch : nat) (err : option error)
  : M (list Z * option error) :=
  match err with
  | Some e => mret ([], Some e)
  | None =>
      ev ← recv ch;
      match ev with
      | ATResponseEv res =>
          match validateATResponse cmd res with
          | Some e => mret ([], Some e)
          | None => mret (Data res, None)
          end
      | _ => mret ([], Some (ErrWrongFrame ev))
      end
  end.

(** The bytes of a frame on the wire with the checksum byte [c], which need
    not be the right one. *)
Definition wire (payload : list Z) (c : Z) : list Z :=
  let n := Z.of_nat (length payload) in
  frameDelimiter :: u8 (Z.shiftr n 8) :: u8 (Z.land n 0xff)
    :: payload ++ [c].

(** The driver once the reader has skipped the bytes [noise] that came
    before [rest], with a log line for each. *)
Definition resynced (noise rest : list Z) (xb : XBee) : XBee :=
  mkXBee (mkPort (writes (port xb)) (wscript (port xb)) rest)
         (wbuf xb) (frameID xb) (eventCh xb) (eventClosed xb)
         (idMap xb) (chans xb) (diag xb ++ (LogResync <$> noise)).

(** The number of payload bytes that the reader indexes in a frame of the
    given kind. *)
Definition headerLen (kind : Z) : nat :=
  if decide (kind = frameATCommandResponse) then 5
  else if decide (kind = frameZigBeeTransmitStatus) then 7
  else if decide (kind = frameZigBeeReceivePacket) then 12
  else 2.

(** A 64-bit and a 16-bit address as the protocol lays them out, big-endian. *)
Definition addressBytes (dest net : Z) : list Z :=
  [u8 (Z.shiftr dest 56); u8 (Z.shiftr dest 48); u8 (Z.shiftr dest 40);
   u8 (Z.shiftr dest 32); u8 (Z.shiftr dest 24); u8 (Z.shiftr dest 16);
   u8 (Z.shiftr dest 8); u8 (Z.land dest 0xff);
   u8 (Z.shiftr net 8); u8 (Z.land net 0xff)].

(** The number that a byte string spells in base 256, most significant byte
    first. *)
Definition beValue (b : list Z) : Z := fold_left (λ v x, v * 256 + x) b 0.

(** A node record as the module sends it in answer to a discovery: the
    bytes [skip] that the driver passes over, the serial number, the
    identifier with its NUL, the parent address, the device type, the status,
    the profile and the manufacturer, and whatever follows. *)
Definition nodeRecord (skip : list Z) (n : Node) (extra : list Z) : list Z :=
  skip
    ++ [u8 (Z.shiftr (SerialNumber_ n) 56); u8 (Z.shiftr (SerialNumber_ n) 48);
        u8 (Z.shiftr (SerialNumber_ n) 40); u8 (Z.shiftr (SerialNumber_ n) 32);
        u8 (Z.shiftr (SerialNumber_ n) 24); u8 (Z.shiftr (SerialNumber_ n) 16);
        u8 (Z.shiftr (SerialNumber_ n) 8); u8 (Z.land (SerialNumber_ n) 0xff)]
    ++ NodeID n ++ [0]
    ++ [u8 (Z.shiftr (ParentNetworkAddress n) 8);
        u8 (Z.land (ParentNetworkAddress n) 0xff);
        DeviceType n; Status n;
        u8 (Z.shiftr (ProfileID n) 8); u8 (Z.land (ProfileID n) 0xff);
        u8 (Z.shiftr (ManufacturerID n) 8);
        u8 (Z.land (ManufacturerID n) 0xff)]
    ++ extra.

(** The fields of a node are in the range of their Go types, and its
    identifier holds no NUL. *)
Record nodeValid (n : Node) : Prop := mkNodeValid {
  nv_serial : 0 ≤ SerialNumber_ n < 2 ^ 64;
  nv_id : Forall (λ b, b ≠ 0) (NodeID n);
  nv_parent : 0 ≤ ParentNetworkAddress n < 2 ^ 16;
  nv_profile : 0 ≤ ProfileID n < 2 ^ 16;
  nv_manufacturer : 0 ≤ ManufacturerID n < 2 ^ 16
}.

(** ** Sample states *)

(** The frame of an AT command response, as the module sends it. *)
Definition response (id : Z) (cmd : ATCommand) (status : Z) (data : list Z)
  : list Z :=
  frame (frameATCommandResponse :: id :: cmd.1 :: cmd.2 :: status :: data).

(** A driver just opened on a device that accepts every write and will send
    the bytes [input]. *)
Definition fresh (input : list Z) : XBee := Open (mkPort [] [] input).

(** A driver with one listener, registered for frame id 1, whose channel
    holds the events [q]. *)
Definition listening (q : list Event) (input : list Z) : XBee :=
  set_idMap {[1 := 0%nat]} (set_chans [q] (fresh input)).

Definition serialHigh : list Z := [0x00; 0x13; 0xA2; 0x00].
Definition serialLow : list Z := [0x40; 0xA1; 0xB2; 0xC3].

Definition xbSerial : XBee :=
  fresh (response 1 atSerialNumberHigh CSOK serialHigh
           ++ response 2 atSerialNumberLow CSOK serialLow).

Definition xbAPError : XBee := fresh (response 1 atAPIEnable CSError []).

Definition xbRate900 : XBee :=
  fresh (response 1 atInterfaceDataRate CSOK [0; 0; 3; 0x84]).
Definition xbRateMax : XBee :=
  fresh (response 1 atInterfaceDataRate CSOK (replicate 8 0xff)).


(** A node record of 20 bytes: network address, serial number, the
    identifier "A" with its NUL, and the 8 bytes that follow. *)
Definition nodeData : list Z :=
  [0x12; 0x34; 0x00; 0x13; 0xA2; 0x00; 0x40; 0x00; 0x00; 0x01; 65; 0;
   0xFF; 0xFE; 1; 0; 0xC1; 0x05; 0x10; 0x1E].

(** A record of 18 bytes in which only 6 bytes follow the NUL. *)
Definition shortNodeData : list Z := take 18 nodeData.

(** The node that [nodeData] describes. *)
Definition sampleNode : Node :=
  mkNode 0x0013A20040000001 [65] 0xFFFE 1 0 0xC105 0x101E.

(** A transmit status with frame id 1, on the wire and as an event. *)
Definition statusFrame : list Z :=
  frame [frameZigBeeTransmitStatus; 1; 0x12; 0x34; 0; 0; 0].
Definition statusEvent : Event :=
  TransmitStatusEv (mkTransmitStatus 0x1234 0 0 0).

(** The module answers a discovery with one node, and then a transmit
    status arrives that carries the frame id of the request. *)
Definition xbDiscover : XBee :=
  fresh (response 1 atNodeDiscover CSOK nodeData ++ statusFrame).

(** The header of an [SH] request with frame id 1, written into the scratch
    buffer of a fresh driver. *)
Definition xbSH : XBee :=
  poke 6 72 (poke 5 83 (poke 4 1 (poke 3 frameATCommand
    (Open (mkPort [] [] []))))).

(** The one-byte payload [0x8a] in the scratch buffer of a fresh driver. *)
Definition xbOneByte : XBee := poke 3 frameModemStatus (fresh []).

(** The module acknowledges the request with frame id 1 that sets the node
    identifier, and a modem status follows. *)
Definition xbName : XBee :=
  fresh (response 1 atNodeIdentifier CSOK [] ++ frame [frameModemStatus; 2]).

(** A device that refuses the next write with the error code 5. *)
Definition xbRefusing : XBee := Open (mkPort [] [Some 5] [0x7e; 0; 2]).

(** Nine bytes, one more than a 64-bit number holds. *)
Definition nineBytes : list Z := [1; 2; 3; 4; 5; 6; 7; 8; 9].

(** * Properties *)

Ltac run := cbv [mbind mret M_bind M_ret modify gets panicM].

Section arithmetic.

Lemma u8_range z : is_byte (u8 z).
Proof. unfold is_byte, u8. apply Z.mod_pos_bound. lia. Qed.

Lemma u8_byte z : is_byte z → u8 z = z.
Proof. unfold is_byte, u8. intros. apply Z.mod_small. lia. Qed.

Lemma sum8_fold l : ∀ c,
  fold_left (λ c v, u8 (c + v)) l (u8 c) = u8 (c + byteSum l).
Proof.
  induction l as [|v l IH]; intros c; cbn.
  - by rewrite Z.add_0_r.
  - replace (u8 (u8 c + v)) with (u8 (c + v))
      by (unfold u8; by rewrite Zplus_mod_idemp_l).
    rewrite IH. unfold byteSum. cbn. f_equal. lia.
Qed.

Lemma sum8_byteSum l : sum8 l = byteSum l mod 256.
Proof. unfold sum8. change 0 with (u8 0) at 1. by rewrite sum8_fold. Qed.

Lemma sum8_range l : is_byte (sum8 l).
Proof. rewrite sum8_byteSum. apply u8_range. Qed.

Lemma sum8_snoc l c : sum8 (l ++ [c]) = u8 (sum8 l + c).
Proof. unfold sum8. by rewrite fold_left_app. Qed.

Lemma checksum_closes l : sum8 (l ++ [u8 (0xff - sum8 l)]) = 0xff.
Proof.
  rewrite sum8_snoc. pose proof (sum8_range l) as H. unfold is_byte in H.
  rewrite (u8_byte (0xff - _)) by (unfold is_byte; lia).
  unfold u8. rewrite Z.mod_small; lia.
Qed.

Lemma land_shifted_low hi lo k :
  0 ≤ k → 0 ≤ lo < 2 ^ k → Z.land (hi * 2 ^ k) lo = 0.
Proof.
  intros Hk Hlo. apply Z.bits_inj'; intros i Hi.
  rewrite Z.land_spec, Z.bits_0.
  destruct (decide (i < k)).
  - by rewrite Z.mul_pow2_bits_low by lia.
  - destruct (decide (lo = 0)) as [->|Hne].
    + by rewrite Z.bits_0, andb_false_r.
    + rewrite (Z.bits_above_log2 lo i), andb_false_r; [done|lia|].
      apply Z.lt_le_trans with k; [|lia].
      apply Z.log2_lt_pow2; lia.
Qed.

Lemma lor_shiftl_low hi lo k :
  0 ≤ k → 0 ≤ lo < 2 ^ k → Z.lor (Z.shiftl hi k) lo = hi * 2 ^ k + lo.
Proof.
  intros Hk Hlo. rewrite Z.shiftl_mul_pow2 by done.
  pose proof (land_shifted_low hi lo k Hk Hlo) as H0.
  rewrite <- Z.lxor_lor by done. by rewrite Z.add_nocarry_lxor.
Qed.

Lemma length_header n :
  0 ≤ n ≤ 65535 →
  Z.lor (Z.shiftl (u8 (Z.shiftr n 8)) 8) (u8 (Z.land n 0xff)) = n.
Proof.
  intros Hn. unfold u8.
  rewrite Z.shiftr_div_pow2 by lia.
  change 0xff with (Z.ones 8). rewrite Z.land_ones by lia.
  change (2 ^ 8) with 256.
  rewrite Z.mod_mod by lia.
  assert (0 ≤ n / 256 < 256) as Hq.
  { split; [apply Z.div_pos; lia|apply Z.div_lt_upper_bound; lia]. }
  rewrite (Z.mod_small (n / 256)) by done.
  pose proof (Z.mod_pos_bound n 256 ltac:(lia)).
  rewrite lor_shiftl_low by (change (2 ^ 8) with 256; lia).
  change (2 ^ 8) with 256.
  pose proof (Z.div_mod n 256). lia.
Qed.

End arithmetic.

Section codec.

Lemma readFull_app n (l rest : list Z) :
  length l = n → readFull n (l ++ rest) = inr (l, rest).
Proof.
  intros <-. unfold readFull.
  rewrite decide_True by (rewrite length_app; lia).
  by rewrite take_app_length, drop_app_length.
Qed.

Lemma readFull_2 a b (l : list Z) : readFull 2 (a :: b :: l) = inr ([a; b], l).
Proof. unfold readFull. by rewrite decide_True by (cbn; lia). Qed.

Lemma readFrame_frame P rest :
  Z.of_nat (length P) ≤ 65535 →
  readFrame (frame P ++ rest) =
    if decide (length P < 2)%nat then TinyFrame rest else GotFrame P rest.
Proof.
  intros HP. unfold frame. cbn [app readFrame].
  rewrite decide_False by (intros H; by apply H).
  rewrite readFull_2.
  cbn [lookup list_lookup default]. unfold id.
  rewrite length_header by lia.
  replace (Z.to_nat (Z.of_nat (length P) + 1)) with (length (P ++ [u8 (0xff - sum8 P)]))
    by (rewrite length_app; cbn; lia).
  rewrite readFull_app by done.
  rewrite checksum_closes. rewrite decide_False by (intros H; by apply H).
  rewrite length_app. cbn [length].
  replace (length P + 1 - 1)%nat with (length P) by lia.
  rewrite take_app_length.
  destruct (decide (Z.of_nat (length P) < 2)), (decide (length P < 2)%nat); try done; lia.
Qed.

Lemma portWrite_eq buf xb : portWrite buf xb = Done (nextAnswer xb) (wrote buf xb).
Proof.
  unfold portWrite, nextAnswer, wrote. by destruct (wscript (port xb)).
Qed.

Lemma writeFrame_eq n xb :
  0 ≤ n ≤ 65535 →
  writeFrame n xb =
    Done (nextAnswer xb)
         (wrote (take (4 + Z.to_nat n) (framed (Z.to_nat n) (wbuf xb)))
                (set_wbuf (framed (Z.to_nat n) (wbuf xb)) xb)).
Proof.
  intros Hn. unfold writeFrame. rewrite decide_False by lia. run.
  rewrite portWrite_eq. unfold framed. rewrite Z2Nat.id by lia.
  destruct xb as [p w f e cl m ch d]; cbn.
  replace (take (Z.to_nat n) (drop 3 (<[2%nat:=_]> (<[1%nat:=_]> w))))
    with (take (Z.to_nat n) (drop 3 w)); [done|].
  destruct w as [|a [|b [|c w]]]; done.
Qed.

Lemma take_insert_end (P : list Z) cs d tl :
  take (S (length P)) (<[length P := cs]> (P ++ d :: tl)) = P ++ [cs].
Proof.
  rewrite insert_app_r_alt by lia. rewrite Nat.sub_diag. cbn.
  change (P ++ cs :: tl) with (P ++ [cs] ++ tl).
  rewrite app_assoc. by rewrite take_app_length' by (rewrite length_app; cbn; lia).
Qed.

Lemma framed_take n w :
  (3 + n < length w)%nat → w !! 0%nat = Some frameDelimiter →
  take (4 + n) (framed n w) = frame (take n (drop 3 w)).
Proof.
  intros Hlen H0. unfold framed, frame.
  destruct w as [|a [|b [|c w]]]; cbn in Hlen; try lia.
  cbn in H0. injection H0 as ->. cbn [drop]. rewrite drop_0.
  assert (length (take n w) = n) as Hl by (rewrite length_take; lia).
  rewrite Hl.
  destruct (drop n w) as [|d tl] eqn:Hd.
  { apply (f_equal length) in Hd. rewrite length_drop in Hd. cbn in Hd. lia. }
  assert (Hw : w = take n w ++ d :: tl) by (rewrite <- Hd; by rewrite take_drop).
  set (P := take n w) in *. clearbody P.
  set (cs := u8 (255 - sum8 P)). clearbody cs.
  cbn. do 3 f_equal. subst w n. apply take_insert_end.
Qed.

End codec.

Section wellformed.

Lemma wbufLen_eq : Z.of_nat wbufLen = 65539.
Proof. unfold wbufLen. lia. Qed.

Global Opaque wbufLen.

Lemma Open_wf device : wf (Open device).
Proof.
  split; cbn.
  - rewrite length_replicate. pose proof wbufLen_eq. lia.
  - done.
  - unfold is_byte; lia.
  - intros id c H. by rewrite lookup_empty in H.
Qed.

Lemma poke_wf i v xb : (0 < i)%nat → wf xb → wf (poke i v xb).
Proof.
  intros Hi [H1 H2 H3 H4]. split; cbn; try done.
  - by rewrite length_insert.
  - rewrite list_lookup_insert_ne by lia. done.
Qed.

End wellformed.

Section frame_ids.

Lemma nextFrameID_eq xb :
  nextFrameID xb = Done (nextID (frameID xb)) (set_frameID (nextID (frameID xb)) xb).
Proof.
  unfold nextFrameID, nextID. run. cbn.
  destruct (decide _); reflexivity.
Qed.

Lemma nextID_spec f :
  is_byte f →
  is_byte (nextID f) ∧ nextID f ≠ 0 ∧ nextID f ≠ f ∧ (f = 255 → nextID f = 1).
Proof.
  unfold nextID, u8, is_byte. intros Hf.
  destruct (decide (f = 255)) as [->|Hne].
  - change ((255 + 1) mod 256) with 0.
    destruct (decide (0 = 0)); [|done]. repeat split; lia.
  - rewrite Z.mod_small by lia.
    destruct (decide _); repeat split; lia.
Qed.

Lemma allocate_chain n : ∀ xb, is_byte (frameID xb) →
  ∃ ids xb', allocate n xb = Done ids xb' ∧ length ids = n
             ∧ chain (frameID xb) ids.
Proof.
  induction n as [|n IH]; intros xb Hb.
  - by exists [], xb.
  - destruct (nextID_spec _ Hb) as (Hf1 & Hf2 & Hf3 & Hf4).
    destruct (IH (set_frameID (nextID (frameID xb)) xb) Hf1)
      as (ids & xb' & E & Hl & Hc).
    exists (nextID (frameID xb) :: ids), xb'.
    cbn [allocate]. run. rewrite nextFrameID_eq, E. cbn.
    repeat split; try done. lia.
Qed.

Lemma chain_lookup ids : ∀ p, chain p ids →
  (∀ i a, ids !! i = Some a → a ≠ 0) ∧
  (∀ i a b, ids !! i = Some a → ids !! S i = Some b →
            a ≠ b ∧ (a = 255 → b = 1)).
Proof.
  induction ids as [|x ids IH]; intros p Hc.
  - split; intros; done.
  - destruct Hc as (H0 & _ & _ & Hc). destruct (IH x Hc) as [IH1 IH2].
    split.
    + intros [|i] a; cbn; [by intros [= <-]|]. apply IH1.
    + intros [|i] a b; cbn; [|apply IH2].
      intros [= <-] Hb. destruct ids as [|y ids]; [done|].
      cbn in Hb. injection Hb as <-. destruct Hc as (_ & Hne & H255 & _).
      split; [congruence|done].
Qed.

(** C4.  Over any number [N] of calls of the frame-id allocator, starting
    from the counter [Open] sets up, no call returns 0, two consecutive calls
    return different identifiers, and the call after the one that returned
    255 returns 1. *)
Theorem nextFrameID_sequence (N : nat) (device : Port) :
  ∃ ids xb',
    allocate N (Open device) = Done ids xb' ∧ length ids = N ∧
    (∀ i a, ids !! i = Some a → a ≠ 0) ∧
    (∀ i a b, ids !! i = Some a → ids !! S i = Some b →
              a ≠ b ∧ (a = 255 → b = 1)).
Proof.
  destruct (allocate_chain N (Open device)) as (ids & xb' & E & Hl & Hc).
  { apply Open_wf. }
  destruct (chain_lookup ids _ Hc) as [H1 H2].
  by exists ids, xb'.
Qed.

End frame_ids.

Section roundtrip.

Lemma writeFrame_wf n xb :
  0 ≤ n ≤ 65535 → wf xb →
  ∃ xb', writeFrame n xb = Done (nextAnswer xb) xb' ∧
    writes (port xb') =
      writes (port xb) ++ [frame (take (Z.to_nat n) (drop 3 (wbuf xb)))].
Proof.
  intros Hn Hwf. eexists. split; [by apply writeFrame_eq|].
  cbn. f_equal. f_equal. apply framed_take; [|apply Hwf].
  rewrite (wf_len _ Hwf). pose proof wbufLen_eq. lia.
Qed.

Lemma frame_checksum P :
  ∃ c, frame P = [frameDelimiter; u8 (Z.shiftr (Z.of_nat (length P)) 8);
                  u8 (Z.land (Z.of_nat (length P)) 0xff)] ++ P ++ [c]
       ∧ (byteSum P + c) mod 256 = 0xff.
Proof.
  eexists. split; [reflexivity|].
  pose proof (checksum_closes P) as H. rewrite sum8_snoc in H.
  rewrite sum8_byteSum in H at 1. unfold u8 in H at 1.
  by rewrite Zplus_mod_idemp_l in H.
Qed.

(** C1, as amended.  Let the scratch buffer hold the payload [P] of [n]
    bytes, [n] from 1 to 65535.  [writeFrame n] hands the device exactly the
    frame of [P]: delimiter, big-endian length, [P], checksum.  The sum of the
    payload bytes plus the checksum is 0xFF modulo 256, so the reader's
    checksum test passes.  The reader then yields [P] back when [n] is at
    least 2, and drops the frame as a tiny frame when [n] is 1. *)
Theorem frame_roundtrip xb n P rest :
  wf xb → 1 ≤ n ≤ 65535 → take (Z.to_nat n) (drop 3 (wbuf xb)) = P →
  ∃ xb', writeFrame n xb = Done (nextAnswer xb) xb' ∧
    writes (port xb') = writes (port xb) ++ [frame P] ∧
    (∃ c, frame P = [frameDelimiter; u8 (Z.shiftr n 8); u8 (Z.land n 0xff)]
                      ++ P ++ [c]
          ∧ (byteSum P + c) mod 256 = 0xff) ∧
    readFrame (frame P ++ rest) =
      if decide (n = 1) then TinyFrame rest else GotFrame P rest.
Proof.
  intros Hwf Hn HP.
  assert (Z.of_nat (length P) = n) as Hl.
  { subst P. rewrite length_take, length_drop, (wf_len _ Hwf).
    pose proof wbufLen_eq. lia. }
  destruct (writeFrame_wf n xb ltac:(lia) Hwf) as (xb' & E & Hw).
  exists xb'. rewrite HP in Hw. repeat split; try done.
  - rewrite <- Hl. apply frame_checksum.
  - rewrite readFrame_frame by lia.
    destruct (decide (n = 1)), (decide (length P < 2)%nat); try done; lia.
Qed.

End roundtrip.

Section roundtrip_examples.

Lemma frame_roundtrip_witness :
  ∃ xb', writeFrame 4 xbSH = Done (nextAnswer xbSH) xb' ∧
    writes (port xb') = writes (port xbSH) ++ [frame [8; 1; 83; 72]] ∧
    (∃ c, frame [8; 1; 83; 72]
            = [frameDelimiter; u8 (Z.shiftr 4 8); u8 (Z.land 4 0xff)]
                ++ [8; 1; 83; 72] ++ [c]
          ∧ (byteSum [8; 1; 83; 72] + c) mod 256 = 0xff) ∧
    readFrame (frame [8; 1; 83; 72] ++ [])
      = if decide (4 = 1) then TinyFrame [] else GotFrame [8; 1; 83; 72] [].
Proof.
  apply (frame_roundtrip xbSH 4 [8; 1; 83; 72] []).
  - unfold xbSH.
    repeat (apply poke_wf; [lia|]). apply Open_wf.
  - lia.
  - vm_compute. reflexivity.
Defined.

(** C1 fails for a payload of one byte: the frame [writeFrame 1] produces
    from the payload [0x8a] passes the checksum test and is then dropped by
    the reader as a tiny frame, so the payload does not come back. *)
Lemma roundtrip_one_byte_payload :
  take 1 (drop 3 (wbuf xbOneByte)) = [0x8a] ∧
  value (writeFrame 1 xbOneByte) = Some None ∧
  written (writeFrame 1 xbOneByte) = [[0x7e; 0; 1; 0x8a; 0x75]] ∧
  readFrame [0x7e; 0; 1; 0x8a; 0x75] = TinyFrame [] ∧
  ¬ ∃ rest, readFrame [0x7e; 0; 1; 0x8a; 0x75] = GotFrame [0x8a] rest.
Proof.
  repeat split; try (vm_compute; reflexivity).
  intros [rest H]. vm_compute in H. discriminate.
Qed.

End roundtrip_examples.

Section reader.



Lemma readIteration_frame xb P rest :
  2 ≤ Z.of_nat (length P) ≤ 65535 →
  inbound (port xb) = frame P ++ rest →
  readIteration xb =
    match classify P with
    | None => Panic IndexOutOfRange
    | Some (id, ev) => (dispatch id ev;; mret None) (set_inbound rest xb)
    end.
Proof.
  intros HP Hin. unfold readIteration. rewrite Hin.
  rewrite readFrame_frame by lia. by rewrite decide_False by lia.
Qed.



Lemma dispatch_waiter id ev ch xb :
  wf xb → id ≠ 0 → idMap xb !! id = Some ch →
  ∃ xb', dispatch id ev xb = Done tt xb' ∧ toWaiter ch ev xb xb'
         ∧ port xb' = port xb.
Proof.
  intros Hwf Hid Hch. unfold dispatch.
  rewrite decide_True by done. rewrite Hch.
  destruct (lookup_lt_is_Some_2 (chans xb) ch) as [q Hq].
  { by eapply wf_idMap. }
  rewrite Hq. cbn. unfold trySend, toWaiter.
  destruct (decide (length q < 1)%nat); eexists; (split; [done|]);
    cbn; (split; [|done]); (split; [done|]); exists q; (split; [done|]).
  - by rewrite decide_True.
  - rewrite decide_False by done. by rewrite list_insert_id.
Qed.

Lemma dispatch_global id ev xb :
  id = 0 ∨ idMap xb !! id = None → eventClosed xb = false →
  ∃ xb', dispatch id ev xb = Done tt xb' ∧ toGlobal ev xb xb'
         ∧ port xb' = port xb.
Proof.
  intros Hid Hcl. unfold dispatch.
  replace (if decide (id ≠ 0) then idMap xb !! id else None)
    with (@None nat) by (destruct (decide (id ≠ 0)), Hid; congruence).
  rewrite Hcl. unfold trySend, toGlobal.
  destruct (decide (length (eventCh xb) < 8)%nat); eexists; by cbn.
Qed.

Lemma readIteration_dispatch xb P rest id ev :
  2 ≤ Z.of_nat (length P) ≤ 65535 →
  inbound (port xb) = frame P ++ rest →
  classify P = Some (id, ev) →
  ∀ xb1, dispatch id ev (set_inbound rest xb) = Done tt xb1 →
         readIteration xb = Done None xb1.
Proof.
  intros HP Hin Hc xb1 Hd.
  rewrite (readIteration_frame xb P rest) by done.
  rewrite Hc. run. by rewrite Hd.
Qed.

Lemma set_inbound_wf rest xb : wf xb → wf (set_inbound rest xb).
Proof. intros []. by split. Qed.


End reader.

Section waiting.

Lemma value_final {A} (r : Result A) a : value r = Some a → r = Done a (final r).
Proof. destruct r; cbn; congruence. Qed.

Lemma stable_refl xb : stable xb xb.
Proof. by split. Qed.

Lemma stable_trans xb1 xb2 xb3 : stable xb1 xb2 → stable xb2 xb3 → stable xb1 xb3.
Proof. intros [] []. split; congruence. Qed.

Lemma stable_wf xb xb' : stable xb xb' → wf xb → wf xb'.
Proof.
  intros [] []. split; try congruence.
  rewrite st_idMap0, st_chans0. done.
Qed.

Lemma dispatch_stable id ev xb xb' :
  dispatch id ev xb = Done tt xb' → stable xb xb'.
Proof.
  unfold dispatch. intros H.
  destruct (if decide (id ≠ 0) then idMap xb !! id else None) as [c|].
  - destruct (chans xb !! c ≫= λ q, trySend 1 q ev);
      injection H as <-; split; cbn; try done. by rewrite length_insert.
  - destruct (eventClosed xb); [done|].
    destruct (trySend 8 (eventCh xb) ev); injection H as <-; by split.
Qed.

Lemma readIteration_stable xb r xb' :
  readIteration xb = Done r xb' → stable xb xb'.
Proof.
  unfold readIteration. intros H.
  destruct (readFrame (inbound (port xb))) as [e|b rest|c rest|rest|buf rest];
    try (injection H as <- <-; by split).
  destruct (classify buf) as [[id ev]|]; [|done].
  revert H. run.
  destruct (dispatch id ev (set_inbound rest xb)) as [[] xb1| |] eqn:Hd;
    [|done..].
  intros [= <- <-]. apply dispatch_stable in Hd.
  destruct Hd. by split.
Qed.

Lemma takeEvent_stable ch xb o xb' :
  takeEvent ch xb = Done o xb' → stable xb xb'.
Proof.
  unfold takeEvent. intros H.
  destruct (chans xb !! ch) as [[|ev q]|]; injection H as <- <-;
    split; cbn; try done. by rewrite length_insert.
Qed.

Lemma turn_stable ch xb o xb' : turn ch xb = Done o xb' → stable xb xb'.
Proof.
  unfold turn. run. intros H.
  destruct (takeEvent ch xb) as [[ev|] xb1| |] eqn:Ht; [| |done..].
  - injection H as <- <-. by eapply takeEvent_stable.
  - destruct (readIteration xb1) as [r xb2| |] eqn:Hr; [|done..].
    injection H as <- <-.
    eapply stable_trans; [by eapply takeEvent_stable|].
    by eapply readIteration_stable.
Qed.

Lemma recv_stable fuel : ∀ ch xb ev xb',
  recv_ fuel ch xb = Done ev xb' → stable xb xb'.
Proof.
  induction fuel as [|fuel IH]; intros ch xb ev xb'; [done|].
  cbn [recv_]. run. intros H.
  destruct (turn ch xb) as [[e|] xb1| |] eqn:Ht; [| |done..].
  - injection H as <- <-. by eapply turn_stable.
  - eapply stable_trans; [by eapply turn_stable|by eapply IH].
Qed.

End waiting.

Section at_command.

Lemma header_bytes (w : list Z) a b c d :
  (7 ≤ length w)%nat →
  take 4 (drop 3 (<[6%nat:=d]> (<[5%nat:=c]> (<[4%nat:=b]> (<[3%nat:=a]> w)))))
  = [a; b; c; d].
Proof.
  intros H. do 7 (destruct w as [|? w]; [cbn in H; lia|]). reflexivity.
Qed.

Lemma framed_length n w : length (framed n w) = length w.
Proof. unfold framed. by rewrite !length_insert. Qed.

Lemma framed_wf n xb : wf xb → wf (set_wbuf (framed n (wbuf xb)) xb).
Proof.
  intros Hwf.
  change (set_wbuf (framed n (wbuf xb)) xb)
    with (poke (3 + n) (u8 (0xff - sum8 (take n (drop 3 (wbuf xb)))))
            (poke 2 (u8 (Z.land (Z.of_nat n) 0xff))
               (poke 1 (u8 (Z.shiftr (Z.of_nat n) 8)) xb))).
  repeat (apply poke_wf; [lia|]). done.
Qed.

Lemma wrote_wf buf xb : wf xb → wf (wrote buf xb).
Proof. intros []. by split. Qed.

Lemma putATHeader_eq id cmd xb :
  putATHeader id cmd xb
  = Done tt (poke 6 cmd.2 (poke 5 cmd.1 (poke 4 id
               (poke 3 frameATCommand xb)))).
Proof. reflexivity. Qed.

(** The state in which [atCommand] and the gathering requests start to wait:
    header in the scratch buffer, listener registered, frame handed to the
    device. *)
Lemma request_sent cmd xb :
  wf xb →
  let id := nextID (frameID xb) in
  ∃ xb1,
    (frameID ← nextFrameID;
     putATHeader frameID cmd;;
     ch ← registerListener frameID;
     err ← writeFrame 4;
     mret (frameID, ch, err)) xb
      = Done (id, length (chans xb), nextAnswer xb) xb1
    ∧ wf xb1
    ∧ writes (port xb1)
        = writes (port xb) ++ [frame [frameATCommand; id; cmd.1; cmd.2]]
    ∧ wscript (port xb1) = tail (wscript (port xb))
    ∧ inbound (port xb1) = inbound (port xb)
    ∧ frameID xb1 = id
    ∧ idMap xb1 = <[id := length (chans xb)]> (idMap xb)
    ∧ chans xb1 = chans xb ++ [[]]
    ∧ eventCh xb1 = eventCh xb
    ∧ eventClosed xb1 = eventClosed xb
    ∧ diag xb1 = diag xb.
Proof.
  intros Hwf id.
  destruct (nextID_spec _ (wf_frameID _ Hwf)) as (Hid & _).
  set (xa := poke 6 cmd.2 (poke 5 cmd.1 (poke 4 id (poke 3 frameATCommand
               (set_frameID id xb))))).
  set (xr := set_idMap (<[id := length (chans xb)]> (idMap xb))
               (set_chans (chans xb ++ [[]]) xa)).
  assert (wf xr) as Hxr.
  { assert (wf xa) as [].
    { unfold xa. repeat (apply poke_wf; [lia|]).
      destruct Hwf. by split. }
    split; try done. cbn. intros i c [[_ <-]|[_ H]]%lookup_insert_Some;
      rewrite length_app; cbn; [lia|].
    apply (wf_idMap _ Hwf) in H. lia. }
  eexists. split; [|split; [|split]].
  - run. rewrite nextFrameID_eq. fold id. cbn.
    rewrite putATHeader_eq. fold xa. cbn.
    change (writeFrame 4 _) with (writeFrame 4 xr).
    rewrite writeFrame_eq by lia. reflexivity.
  - apply wrote_wf. by apply framed_wf.
  - change (writes (port xb)
              ++ [take (4 + Z.to_nat 4) (framed (Z.to_nat 4) (wbuf xr))]
            = writes (port xb) ++ [frame [frameATCommand; id; cmd.1; cmd.2]]).
    rewrite framed_take.
    + do 3 f_equal. apply header_bytes.
      pose proof (wf_len _ Hwf). pose proof wbufLen_eq. cbn. lia.
    + rewrite (wf_len _ Hxr). pose proof wbufLen_eq. lia.
    + apply Hxr.
  - by cbn.
Qed.

End at_command.

Section at_command_runs.

Lemma atCommand_eq cmd xb id ch err xb1 :
  (frameID ← nextFrameID;
   putATHeader frameID cmd;;
   ch ← registerListener frameID;
   err ← writeFrame 4;
   mret (frameID, ch, err)) xb = Done (id, ch, err) xb1 →
  atCommand cmd [] xb
  = defer (unregisterListener id) (awaitResponse cmd ch err) xb1.
Proof.
  unfold atCommand. rewrite decide_False by (cbn; lia).
  unfold defer, awaitResponse. run.
  rewrite !nextFrameID_eq. cbv beta iota. rewrite !putATHeader_eq.
  cbv beta iota. rewrite decide_False by (intros H; by apply H).
  change (4 + Z.of_nat (length [])) with 4.
  unfold registerListener. cbv beta iota zeta.
  destruct (writeFrame 4 _) as [a s| |]; [|done..].
  by intros [= <- <- <- <-].
Qed.

Lemma awaitResponse_stable cmd ch err xb r xb' :
  awaitResponse cmd ch err xb = Done r xb' → stable xb xb'.
Proof.
  unfold awaitResponse. destruct err as [e|]; run.
  - intros [= <- <-]. apply stable_refl.
  - destruct (recv ch xb) as [ev s| |] eqn:Hr; [|done..].
    apply recv_stable in Hr. intros H.
    assert (xb' = s) as ->; [|done].
    destruct ev; try by injection H.
    destruct (validateATResponse cmd res); by injection H.
Qed.

Lemma awaitResponse_error cmd ch err xb b e xb' :
  awaitResponse cmd ch err xb = Done (b, Some e) xb' → b = [].
Proof.
  unfold awaitResponse. destruct err as [e'|]; run.
  - by intros [= <- _ _].
  - destruct (recv ch xb) as [ev s| |]; [|done..].
    destruct ev; try by intros [= <- _ _].
    destruct (validateATResponse cmd res); by intros [= <- _ _].
Qed.

Lemma unregisterListener_stable_wf id xb xb0 :
  wf xb0 → stable xb0 xb → wf (unregisterListener id xb).
Proof.
  intros Hwf Hst. pose proof (stable_wf _ _ Hst Hwf) as [].
  split; try done. cbn. intros i c [_ H]%lookup_delete_Some. eauto.
Qed.


(** When [atCommand] returns an error, the data it returns is [nil]. *)
Lemma atCommand_error_nil cmd val xb b e xb' :
  atCommand cmd val xb = Done (b, Some e) xb' → b = [].
Proof.
  unfold atCommand. destruct (decide _); [by intros [= <- _ _]|].
  unfold defer. run.
  destruct (nextFrameID xb) as [id s0| |]; [|done..].
  destruct (putATHeader id cmd s0) as [[] s1| |]; [|done..].
  destruct (decide (length val ≠ 0%nat)); cbv beta iota.
  all: destruct (registerListener id _) as [ch s3| |]; [|done..].
  all: destruct (writeFrame _ s3) as [err s4| |]; [|done..].
  all: intros H.
  all: apply (awaitResponse_error cmd ch err s4 b e (final (awaitResponse cmd ch err s4))).
  all: unfold awaitResponse; run.
  all: destruct err as [e'|]; [by injection H as <- <-|].
  all: destruct (recv ch s4) as [ev s5| |]; [|done..].
  all: destruct ev; try by injection H as <- <-.
  all: destruct (validateATResponse cmd res); by injection H as <- <-.
Qed.

End at_command_runs.

Section integers.

Lemma lor_u64_byte v b :
  is_byte b →
  Z.lor (u64 (Z.shiftl v 8)) b = (v mod 2 ^ 56) * 2 ^ 8 + b.
Proof.
  intros Hb. unfold u64. rewrite Z.shiftl_mul_pow2 by lia.
  change (2 ^ 64) with (2 ^ 56 * 2 ^ 8).
  rewrite Z.mul_mod_distr_r by lia.
  rewrite <- (Z.shiftl_mul_pow2 _ 8) by lia.
  rewrite lor_shiftl_low; [by rewrite Z.shiftl_mul_pow2|lia|apply Hb].
Qed.

Lemma decodeUint_fold b : ∀ v,
  bytes b → 0 ≤ v < 2 ^ 64 →
  0 ≤ fold_left (λ v b, Z.lor (u64 (Z.shiftl v 8)) b) b v < 2 ^ 64.
Proof.
  induction b as [|x b IH]; intros v Hb Hv; [done|].
  apply Forall_cons in Hb as [Hx Hb]. cbn. apply IH; [done|].
  rewrite lor_u64_byte by done.
  pose proof (Z.mod_pos_bound v (2 ^ 56) ltac:(lia)).
  unfold is_byte in Hx. lia.
Qed.

Lemma decodeUint_range b : bytes b → 0 ≤ decodeUint b < 2 ^ 64.
Proof. intros Hb. apply decodeUint_fold; [done|lia]. Qed.



End integers.

Section typed_operations.


(** When the [SH] exchange fails, [SerialNumber] returns its error and does
    not go on to [SL]. *)
Lemma SerialNumber_stops_on_error xb b e xb1 :
  atCommand atSerialNumberHigh [] xb = Done (b, Some e) xb1 →
  SerialNumber xb = Done (0, Some e) xb1.
Proof. intros E. unfold SerialNumber. run. by rewrite E. Qed.

(** A call of [SerialNumber] that returns no error has made both exchanges,
    each with four bytes of data. *)
Lemma SerialNumber_success xb v xb2 :
  SerialNumber xb = Done (v, None) xb2 →
  ∃ hi lo xb1,
    atCommand atSerialNumberHigh [] xb = Done (hi, None) xb1 ∧
    length hi = 4%nat ∧
    atCommand atSerialNumberLow [] xb1 = Done (lo, None) xb2 ∧
    length lo = 4%nat.
Proof.
  unfold SerialNumber. run.
  destruct (atCommand atSerialNumberHigh [] xb) as [[hi [e|]] xb1| |] eqn:E1;
    try done.
  destruct (decide (length hi ≠ 4%nat)) as [|Hhi]; [done|].
  destruct (BigEndianUint32 hi); [|done].
  destruct (atCommand atSerialNumberLow [] xb1) as [[lo [e|]] s| |] eqn:E2;
    try done.
  destruct (decide (length lo ≠ 4%nat)) as [|Hlo]; [done|].
  destruct (BigEndianUint32 lo); [|done].
  intros [= _ <-]. exists hi, lo, xb1.
  split; [done|]. split; [by apply dec_stable|].
  split; [done|by apply dec_stable].
Qed.

(** C8.  Whenever the [AP] exchange fails, [atCommand] returning an error,
    the data it returns is [nil], and [APIEnabled], which reads the first
    byte of the data before it looks at the error, panics with an index out
    of range instead of returning the error. *)
Theorem APIEnabled_panics_on_error xb b e xb' :
  atCommand atAPIEnable [] xb = Done (b, Some e) xb' →
  b = [] ∧ APIEnabled xb = Panic IndexOutOfRange.
Proof.
  intros E. pose proof (atCommand_error_nil _ _ _ _ _ _ E) as ->.
  split; [done|]. unfold APIEnabled. run. by rewrite E.
Qed.

(** C6, as amended.  When the [BD] exchange succeeds with data [b], the
    value [v] decoded big-endian from [b] fits 64 bits and
    [InterfaceDataRate] returns without error: the entry [v] of the table of
    standard rates when [v] is at most 7, and otherwise [v] converted to
    [int], which is [v] itself below 2^63 and [v - 2^64] from there on.  A
    value of 3 gives 9600 and a value of 0x384 gives 900. *)
Theorem InterfaceDataRate_value xb b xb' :
  bytes b →
  atCommand atInterfaceDataRate [] xb = Done (b, None) xb' →
  ∃ r, InterfaceDataRate xb = Done (r, None) xb' ∧
    0 ≤ decodeUint b < 2 ^ 64 ∧
    (decodeUint b ≤ 7 →
       standardDataRates !! Z.to_nat (decodeUint b) = Some r) ∧
    (7 < decodeUint b < 2 ^ 63 → r = decodeUint b) ∧
    (2 ^ 63 ≤ decodeUint b → r = decodeUint b - 2 ^ 64) ∧
    (decodeUint b = 3 → r = 9600) ∧
    (decodeUint b = 0x384 → r = 900).
Proof.
  intros Hb E. pose proof (decodeUint_range b Hb) as Hv.
  unfold InterfaceDataRate. run. rewrite E.
  destruct (decide (decodeUint b ≤ 7)) as [Hle|Hgt].
  - destruct (lookup_lt_is_Some_2 standardDataRates (Z.to_nat (decodeUint b)))
      as [r Hr]; [cbn; lia|].
    rewrite Hr. exists r. repeat split; try done; try lia.
    intros H3. rewrite H3 in Hr. vm_compute in Hr. congruence.
  - exists (int_of_u64 (decodeUint b)). unfold int_of_u64.
    repeat split; try done; try lia.
    + intros. by rewrite decide_True by lia.
    + intros. by rewrite decide_False by lia.
    + intros H. by rewrite H.
Qed.

End typed_operations.

Section gathering.

Lemma turn_take ch ev q xb :
  chans xb !! ch = Some (ev :: q) →
  turn ch xb = Done (Some ev) (set_chans (<[ch := q]> (chans xb)) xb).
Proof. intros H. unfold turn, takeEvent. run. by rewrite H. Qed.

Lemma gather_take {A} (body : list A → Event → gathered A)
    wait ch ev q acc xb :
  chans xb !! ch = Some (ev :: q) →
  gather body (S wait) ch acc xb
  = match body acc ev with
    | Next a =>
        gather body wait ch (acc ++ [a])
               (set_chans (<[ch := q]> (chans xb)) xb)
    | Return records e =>
        Done (records, Some e) (set_chans (<[ch := q]> (chans xb)) xb)
    | Crash p => Panic p
    end.
Proof.
  intros H. cbn [gather]. run. rewrite (turn_take _ _ _ _ H).
  by destruct (body acc ev).
Qed.

Lemma readIteration_silence xb :
  inbound (port xb) = [] → readIteration xb = Done (Some ErrEOF) xb.
Proof.
  intros H. unfold readIteration. rewrite H. cbn. f_equal.
  destruct xb as [[w s i] ? ? ? ? ? ? ?]. cbn in H. by subst.
Qed.

(** The deadline passes in silence: nothing arrives and the channel is
    empty, so every turn up to the deadline finds nothing, and the call
    returns the records it holds. *)
Lemma gather_silence {A} (body : list A → Event → gathered A)
    wait ch acc xb :
  inbound (port xb) = [] → chans xb !! ch = Some [] →
  gather body wait ch acc xb = Done (acc, None) xb.
Proof.
  intros Hin Hch. induction wait as [|wait IH]; [done|].
  cbn [gather]. unfold turn, takeEvent. run.
  by rewrite Hch, readIteration_silence.
Qed.

Lemma validateATResponse_rejects cmd res :
  ATCommand_ res ≠ cmd ∨ CommandStatus res ≠ CSOK →
  ∃ e, validateATResponse cmd res = Some e.
Proof.
  unfold validateATResponse. intros H.
  destruct (decide (ATCommand_ res ≠ cmd)) as [|Hc]; [by eauto|].
  destruct (decide (CommandStatus res = CSOK)); [by destruct H|].
  repeat (destruct (decide _); [by eauto|]). by eauto.
Qed.

Lemma nodeOfEvent_rejects nodes res :
  ATCommand_ res ≠ atNodeDiscover ∨ CommandStatus res ≠ CSOK
  ∨ (length (Data res) < 18)%nat ∨ IndexByte (drop 10 (Data res)) 0 = None →
  ∃ e, nodeOfEvent nodes (ATResponseEv res) = Return nodes e.
Proof.
  intros H. cbn.
  destruct (validateATResponse atNodeDiscover res) as [e|] eqn:Hv; [by eauto|].
  unfold parseNode. destruct (decide _); [by eauto|].
  destruct H as [H|[H|[H|H]]]; try lia.
  - destruct (validateATResponse_rejects atNodeDiscover res) as [e He];
      [by left|congruence].
  - destruct (validateATResponse_rejects atNodeDiscover res) as [e He];
      [by right|congruence].
  - rewrite H. by eauto.
Qed.

Lemma scanOfEvent_rejects devices res :
  ATCommand_ res ≠ atActiveScan ∨ CommandStatus res ≠ CSOK
  ∨ (length (Data res) < 16)%nat →
  ∃ e, scanOfEvent devices (ATResponseEv res) = Return devices e.
Proof.
  intros H. cbn.
  destruct (validateATResponse atActiveScan res) as [e|] eqn:Hv; [by eauto|].
  unfold parseScan. destruct (decide _); [by eauto|].
  destruct H as [H|[H|H]]; try lia.
  - destruct (validateATResponse_rejects atActiveScan res) as [e He];
      [by left|congruence].
  - destruct (validateATResponse_rejects atActiveScan res) as [e He];
      [by right|congruence].
Qed.

(** C3, as amended.  In the loop of [NodeDiscover] and of [ActiveScan]:
    when the deadline expires, at once or after turns in which nothing
    arrives, the call returns the records accumulated so far and no error;
    when the event it receives is an AT command response
    with another AT identifier, with a status that is not OK, or with data
    that are too short (under 18 bytes for a node, under 16 for a scanned
    device) or, for a node, lack the terminator of the identifier, the call
    returns the records accumulated so far and an error; when the event is
    not an AT command response the call returns the error and no record. *)
Theorem gather_returns :
  (∀ ch nodes devices xb,
     gather nodeOfEvent 0 ch nodes xb = Done (nodes, None) xb ∧
     gather scanOfEvent 0 ch devices xb = Done (devices, None) xb) ∧
  (∀ wait ch nodes devices xb,
     inbound (port xb) = [] → chans xb !! ch = Some [] →
     gather nodeOfEvent wait ch nodes xb = Done (nodes, None) xb ∧
     gather scanOfEvent wait ch devices xb = Done (devices, None) xb) ∧
  (∀ wait ch ev q xb,
     chans xb !! ch = Some (ev :: q) →
     let xb1 := set_chans (<[ch := q]> (chans xb)) xb in
     (∀ nodes res,
        ev = ATResponseEv res →
        ATCommand_ res ≠ atNodeDiscover ∨ CommandStatus res ≠ CSOK
        ∨ (length (Data res) < 18)%nat
        ∨ IndexByte (drop 10 (Data res)) 0 = None →
        ∃ e, gather nodeOfEvent (S wait) ch nodes xb
             = Done (nodes, Some e) xb1) ∧
     (∀ devices res,
        ev = ATResponseEv res →
        ATCommand_ res ≠ atActiveScan ∨ CommandStatus res ≠ CSOK
        ∨ (length (Data res) < 16)%nat →
        ∃ e, gather scanOfEvent (S wait) ch devices xb
             = Done (devices, Some e) xb1) ∧
     ((∀ res, ev ≠ ATResponseEv res) →
      ∀ nodes devices,
        gather nodeOfEvent (S wait) ch nodes xb
        = Done ([], Some (ErrWrongFrame ev)) xb1 ∧
        gather scanOfEvent (S wait) ch devices xb
        = Done ([], Some (ErrWrongFrame ev)) xb1)).
Proof.
  split; [done|]. split.
  { intros wait ch nodes devices xb Hin Hch.
    split; by apply gather_silence. }
  intros wait ch ev q xb Hch xb1. repeat split.
  - intros nodes res -> H.
    destruct (nodeOfEvent_rejects nodes res H) as [e He].
    exists e. by rewrite (gather_take _ _ _ _ _ _ _ Hch), He.
  - intros devices res -> H.
    destruct (scanOfEvent_rejects devices res H) as [e He].
    exists e. by rewrite (gather_take _ _ _ _ _ _ _ Hch), He.
  - rewrite (gather_take _ _ _ _ _ _ _ Hch).
    destruct ev; try done. by destruct (H res).
  - rewrite (gather_take _ _ _ _ _ _ _ Hch).
    destruct ev; try done. by destruct (H res).
Qed.

Lemma parseNode_short_tail nodes data ix :
  (18 ≤ length data)%nat →
  IndexByte (drop 10 data) 0 = Some ix →
  (length data < 10 + ix + 1 + 8)%nat →
  parseNode nodes data = Crash IndexOutOfRange.
Proof.
  intros Hlen Hix Hshort. unfold parseNode.
  rewrite decide_False by lia. rewrite Hix.
  assert (drop (ix + 1) (drop 10 data) !! 7%nat = None) as H7.
  { apply lookup_ge_None. rewrite !length_drop. lia. }
  rewrite H7.
  repeat (match goal with
          | |- context [?l !! ?i] => destruct (l !! i); cbn; [|done]
          end).
  done.
Qed.

(** C10.  An AT command response that [NodeDiscover] accepts (the [ND]
    identifier, status OK, at least 18 bytes of data, a NUL after the node
    identifier) makes it panic with an index out of range whenever fewer than
    8 bytes follow the NUL: the check for 18 bytes does not cover the
    fields read at fixed offsets after the terminator. *)
Theorem NodeDiscover_short_tail_panics wait ch res q nodes xb ix :
  chans xb !! ch = Some (ATResponseEv res :: q) →
  validateATResponse atNodeDiscover res = None →
  (18 ≤ length (Data res))%nat →
  IndexByte (drop 10 (Data res)) 0 = Some ix →
  (length (Data res) < 10 + ix + 1 + 8)%nat →
  gather nodeOfEvent (S wait) ch nodes xb = Panic IndexOutOfRange.
Proof.
  intros Hch Hv Hlen Hix Hshort.
  rewrite (gather_take _ _ _ _ _ _ _ Hch). cbn [nodeOfEvent]. rewrite Hv.
  by rewrite (parseNode_short_tail _ _ ix).
Qed.

End gathering.

Section short_frames.

Ltac short_frame H0 Hnone :=
  unfold classify; rewrite H0;
  unfold frameATCommandResponse, frameModemStatus, frameZigBeeTransmitStatus,
    frameZigBeeReceivePacket;
  cbn;
  repeat first [ rewrite decide_True by done | rewrite decide_False by done ];
  rewrite Hnone;
  repeat (match goal with
          | |- context [?l !! ?i] => destruct (l !! i); cbn; [|done]
          end);
  done.

Lemma classify_short P :
  (P !! 0%nat = Some frameATCommandResponse ∧ (length P < 5)%nat)
  ∨ (P !! 0%nat = Some frameZigBeeTransmitStatus ∧ (length P < 7)%nat)
  ∨ (P !! 0%nat = Some frameZigBeeReceivePacket ∧ (length P < 12)%nat) →
  classify P = None.
Proof.
  intros [[H0 Hl]|[[H0 Hl]|[H0 Hl]]].
  - assert (P !! 4%nat = None) as Hn by (apply lookup_ge_None; lia).
    short_frame H0 Hn.
  - assert (P !! 6%nat = None) as Hn by (apply lookup_ge_None; lia).
    short_frame H0 Hn.
  - assert (P !! 11%nat = None) as Hn by (apply lookup_ge_None; lia).
    short_frame H0 Hn.
Qed.

(** C9.  A checksum-valid inbound frame of a recognised kind whose payload
    has at least 2 bytes and fewer than the kind's fixed header (5 for an AT
    command response, 7 for a transmit status, 12 for a receive packet)
    passes the reader's checks, the tiny-frame test being the only one on the
    length, and the classification then indexes past the end of the payload:
    the reader panics instead of discarding the frame. *)
Theorem reader_panics_on_short_frame xb P rest :
  inbound (port xb) = frame P ++ rest →
  (2 ≤ length P)%nat →
  (P !! 0%nat = Some frameATCommandResponse ∧ (length P < 5)%nat)
  ∨ (P !! 0%nat = Some frameZigBeeTransmitStatus ∧ (length P < 7)%nat)
  ∨ (P !! 0%nat = Some frameZigBeeReceivePacket ∧ (length P < 12)%nat) →
  readFrame (inbound (port xb)) = GotFrame P rest ∧
  readIteration xb = Panic IndexOutOfRange.
Proof.
  intros Hin H2 Hk.
  assert (Z.of_nat (length P) ≤ 65535) as Hmax
    by (destruct Hk as [[_ ?]|[[_ ?]|[_ ?]]]; lia).
  split.
  - rewrite Hin, readFrame_frame by done. by rewrite decide_False by lia.
  - rewrite (readIteration_frame xb P rest) by (done || lia).
    by rewrite classify_short.
Qed.

End short_frames.

Section transmit.

Lemma copy_at_length (dst src : list Z) off :
  (off ≤ length dst)%nat → length (copy_at dst off src) = length dst.
Proof.
  intros H. unfold copy_at.
  rewrite !length_app, !length_take, length_drop. lia.
Qed.

Lemma transmit_bytes (w : list Z) k id d7 d6 d5 d4 d3 d2 d1 d0 n1 n0 r o data :
  (17 + length data ≤ length w)%nat →
  take (14 + length data)
    (drop 3
       (copy_at
          (<[16%nat:=o]> (<[15%nat:=r]> (<[14%nat:=n0]> (<[13%nat:=n1]>
           (<[12%nat:=d0]> (<[11%nat:=d1]> (<[10%nat:=d2]> (<[9%nat:=d3]>
           (<[8%nat:=d4]> (<[7%nat:=d5]> (<[6%nat:=d6]> (<[5%nat:=d7]>
           (<[4%nat:=id]> (<[3%nat:=k]> w))))))))))))))
          17 data))
  = [k; id; d7; d6; d5; d4; d3; d2; d1; d0; n1; n0; r; o] ++ data.
Proof.
  intros H. do 17 (destruct w as [|? w]; [cbn in H; lia|]).
  cbn in H. unfold copy_at. cbn [insert list_insert take length Nat.sub].
  rewrite Nat.sub_0_r, (take_ge data) by lia.
  cbn [app Nat.add drop take]. do 14 f_equal.
  rewrite take_0. cbn [app]. by rewrite take_app_length.
Qed.

(** C5.  [Transmit] fails with a size error exactly when the data are
    longer than 65516 bytes, and then nothing is written and the driver is
    untouched.  For data of at most 65516 bytes it hands the device one
    buffer, the frame of the transmit request, of 4 + 14 + len(data) bytes,
    and returns what the device answers, which is no size error; so 65520
    bytes fail with a size error before anything is written, and 65516
    bytes, on a device that accepts the write, succeed with exactly 65534
    bytes written. *)
Theorem Transmit_size_limit xb dest net radius opts data :
  wf xb →
  ∃ err xb',
    Transmit dest net radius opts data xb = Done err xb' ∧
    ((∃ e, err = Some e ∧ is_size_error e = true)
     ↔ Z.of_nat (length data) > 65516) ∧
    (Z.of_nat (length data) > 65516 →
       err = Some (ErrDataTooLong (Z.of_nat (length data))) ∧ xb' = xb) ∧
    (Z.of_nat (length data) ≤ 65516 →
       err = nextAnswer xb ∧
       ∃ buf, writes (port xb') = writes (port xb) ++ [buf] ∧
              buf = frame (transmitPayload (nextID (frameID xb))
                             dest net radius opts data) ∧
              Z.of_nat (length buf) = 4 + 14 + Z.of_nat (length data)).
Proof.
  intros Hwf. unfold Transmit.
  destruct (decide (Z.of_nat (length data) > 65536 - 20)) as [Hbig|Hfit].
  - eexists _, _. split; [reflexivity|]. repeat split; try done; try lia.
    by eauto.
  - pose proof wbufLen_eq as HL.
    run. rewrite nextFrameID_eq. cbv beta iota.
    rewrite writeFrame_eq by lia.
    eexists _, _. split; [reflexivity|].
    assert (∀ e, nextAnswer xb = Some e → is_size_error e = false) as Hio.
    { unfold nextAnswer. intros e.
      destruct (wscript (port xb)) as [|[c|] ?]; cbn; [done| |done].
      by intros [= <-]. }
    repeat split; try lia.
    + intros (e & He & Hs). apply Hio in He. congruence.
    + eexists. split; [reflexivity|].
      cbn [wbuf set_wbuf poke set_frameID].
      set (w := copy_at _ 17 data).
      assert (length w = length (wbuf xb)) as Hlw.
      { pose proof (wf_len _ Hwf).
        unfold w. rewrite copy_at_length; rewrite !length_insert; lia. }
      split.
      * rewrite framed_take.
        -- f_equal.
           replace (Z.to_nat (14 + Z.of_nat (length data)))
             with (14 + length data)%nat by lia.
           apply transmit_bytes. rewrite (wf_len _ Hwf). lia.
        -- rewrite Hlw, (wf_len _ Hwf). lia.
        -- pose proof (wf_delim _ Hwf) as Hd. unfold w, copy_at.
           destruct (wbuf xb) as [|a w']; [done|].
           cbn in Hd. injection Hd as ->. reflexivity.
      * rewrite length_take, framed_length, Hlw, (wf_len _ Hwf). lia.
Qed.

End transmit.

Section reader_terminates.

Lemma readFull_shorter n (input : list Z) l rest :
  readFull n input = inr (l, rest) → (length rest ≤ length input)%nat.
Proof.
  unfold readFull. destruct (decide _); [|by destruct input].
  intros [= <- <-]. rewrite length_drop. lia.
Qed.

Lemma readFrame_consumes input :
  match readFrame input with
  | ReadError _ => True
  | Resync _ rest | BadChecksum _ rest | TinyFrame rest | GotFrame _ rest =>
      (length rest < length input)%nat
  end.
Proof.
  unfold readFrame. destruct input as [|b input]; [done|].
  destruct (decide _); [cbn; lia|].
  destruct (readFull 2 input) as [e|[hdr in1]] eqn:H1; [done|].
  apply readFull_shorter in H1.
  destruct (readFull _ in1) as [e|[buf in2]] eqn:H2; [done|].
  apply readFull_shorter in H2.
  repeat (destruct (decide _)); cbn; lia.
Qed.

Lemma dispatch_port id ev xb xb' :
  dispatch id ev xb = Done tt xb' → port xb' = port xb.
Proof.
  unfold dispatch. intros H.
  destruct (if decide (id ≠ 0) then idMap xb !! id else None) as [c|].
  - by destruct (chans xb !! c ≫= λ q, trySend 1 q ev); injection H as <-.
  - destruct (eventClosed xb); [done|].
    by destruct (trySend 8 (eventCh xb) ev); injection H as <-.
Qed.

Lemma readIteration_consumes xb xb' :
  readIteration xb = Done None xb' →
  (length (inbound (port xb')) < length (inbound (port xb)))%nat.
Proof.
  unfold readIteration. intros H.
  pose proof (readFrame_consumes (inbound (port xb))) as Hc.
  destruct (readFrame (inbound (port xb))) as [e|b rest|c rest|rest|buf rest];
    [discriminate|by injection H as <-..|].
  destruct (classify buf) as [[id ev]|]; [|done].
  revert H. run.
  destruct (dispatch id ev (set_inbound rest xb)) as [[] xb1| |] eqn:Hd;
    [|done..].
  intros [= <-]. apply dispatch_port in Hd. by rewrite Hd.
Qed.

Lemma dispatch_not_blocked id ev xb xb' : dispatch id ev xb ≠ Blocked xb'.
Proof.
  unfold dispatch.
  destruct (if decide (id ≠ 0) then idMap xb !! id else None) as [c|].
  - by destruct (chans xb !! c ≫= λ q, trySend 1 q ev).
  - destruct (eventClosed xb); [done|].
    by destruct (trySend 8 (eventCh xb) ev).
Qed.

Lemma readIteration_not_blocked xb xb' : readIteration xb ≠ Blocked xb'.
Proof.
  unfold readIteration.
  destruct (readFrame (inbound (port xb))) as [e|b rest|c rest|rest|buf rest];
    try done.
  destruct (classify buf) as [[id ev]|]; [|done]. run.
  pose proof (dispatch_not_blocked id ev (set_inbound rest xb)) as H.
  destruct (dispatch id ev (set_inbound rest xb)) as [[] xb1| |]; try done.
  intros [= <-]. by eapply H.
Qed.

Lemma readLoop_fuel fuel : ∀ xb,
  (length (inbound (port xb)) < fuel)%nat →
  ∀ xb', readLoop_ fuel xb ≠ Blocked xb'.
Proof.
  induction fuel as [|fuel IH]; intros xb Hlen xb'; [lia|].
  cbn [readLoop_]. run.
  destruct (readIteration xb) as [[e|] xb1| |] eqn:Hr; try done.
  - apply readIteration_consumes in Hr. apply IH. lia.
  - by apply readIteration_not_blocked in Hr.
Qed.

(** On the bytes that are to arrive, [readLoop] comes to an end: it returns
    the error of the byte source, or it panics. *)
Lemma readLoop_ends xb :
  (∃ e xb', readLoop xb = Done e xb') ∨ (∃ p, readLoop xb = Panic p).
Proof.
  pose proof (readLoop_fuel (S (length (inbound (port xb)))) xb ltac:(lia))
    as H.
  unfold readLoop. destruct (readLoop_ _ xb) as [e xb'|p|xb'];
    [left; by eauto|right; by eauto|by destruct (H xb')].
Qed.

End reader_terminates.

Section receive_blocks.

Lemma takeEvent_cases ch xb :
  (∃ ev xb', takeEvent ch xb = Done (Some ev) xb') ∨ idle ch xb.
Proof.
  unfold idle, takeEvent.
  destruct (chans xb !! ch) as [[|ev q]|]; by eauto.
Qed.

Lemma recv_silence fuel : ∀ ch xb,
  inbound (port xb) = [] → idle ch xb → recv_ fuel ch xb = Blocked xb.
Proof.
  induction fuel as [|fuel IH]; intros ch xb Hin Hidle; [done|].
  cbn [recv_]. unfold turn. run.
  rewrite Hidle, readIteration_silence by done. by apply IH.
Qed.

Lemma readIteration_stops xb e xb' :
  readIteration xb = Done (Some e) xb' → xb' = set_inbound [] xb.
Proof.
  unfold readIteration.
  destruct (readFrame (inbound (port xb))) as [e'|b rest|c rest|rest|buf rest];
    try done; [by intros [= _ <-]|].
  destruct (classify buf) as [[id ev]|]; [|done]. run.
  by destruct (dispatch id ev (set_inbound rest xb)) as [[] xb1| |].
Qed.

Lemma recv_fuel fuel : ∀ ch xb xb',
  (length (inbound (port xb)) + 2 ≤ fuel)%nat →
  recv_ fuel ch xb = Blocked xb' →
  inbound (port xb') = [] ∧ idle ch xb'.
Proof.
  induction fuel as [|fuel IH]; intros ch xb xb' Hlen; [lia|].
  cbn [recv_]. unfold turn. run.
  destruct (takeEvent_cases ch xb) as [(ev & xb1 & ->)|Hidle]; [done|].
  rewrite Hidle.
  destruct (readIteration xb) as [[e|] xb1| |] eqn:Hr.
  - apply readIteration_stops in Hr as ->.
    assert (idle ch (set_inbound [] xb)) as Hidle'.
    { unfold idle, takeEvent in *. cbn.
      by destruct (chans xb !! ch) as [[|ev q]|]. }
    rewrite recv_silence by done. by intros [= <-].
  - apply readIteration_consumes in Hr. apply IH. lia.
  - done.
  - by apply readIteration_not_blocked in Hr.
Qed.

(** A receive blocks for ever only when the reader has come to the end of
    what arrives and has left the channel empty. *)
Lemma recv_blocked ch xb xb' :
  recv ch xb = Blocked xb' → inbound (port xb') = [] ∧ idle ch xb'.
Proof. unfold recv. apply recv_fuel. lia. Qed.

End receive_blocks.

Section answered.

Lemma classify_response id c0 c1 st data :
  classify (frameATCommandResponse :: id :: c0 :: c1 :: st :: data)
  = Some (id, ATResponseEv (mkATCommandResponse (c0, c1) st data)).
Proof.
  unfold classify, frameATCommandResponse, frameModemStatus. cbn.
  rewrite decide_False by done. by rewrite decide_True by done.
Qed.

(** A request that the module answers.  The device accepts the write and
    the next bytes to arrive are the response frame that carries the frame id
    of the request: [atCommand] hands the device the request and returns what
    the response holds, its data when it is valid and the error of
    [validateATResponse] otherwise. *)
Lemma atCommand_answered cmd xb got st data rest :
  wf xb →
  nextAnswer xb = None →
  Z.of_nat (length data) + 5 ≤ 65535 →
  inbound (port xb)
    = response (nextID (frameID xb)) got st data ++ rest →
  ∃ xb',
    atCommand cmd [] xb
    = Done (match validateATResponse cmd
                    (mkATCommandResponse got st data) with
            | Some e => ([], Some e)
            | None => (data, None)
            end) xb'
    ∧ inbound (port xb') = rest
    ∧ idMap xb' = delete (nextID (frameID xb)) (idMap xb).
Proof.
  intros Hwf Hans Hlen Hin.
  destruct (nextID_spec _ (wf_frameID _ Hwf)) as (_ & Hid0 & _).
  destruct (request_sent cmd xb Hwf)
    as (xb1 & Hsent & Hwf1 & _ & _ & Hin1 & _ & Hmap & Hch & _).
  rewrite (atCommand_eq _ _ _ _ _ _ Hsent), Hans.
  set (id := nextID (frameID xb)) in *. set (ch := length (chans xb)) in *.
  set (ev := ATResponseEv (mkATCommandResponse got st data)).
  destruct got as [g0 g1].
  (* first turn: the channel is empty and the reader delivers the response *)
  assert (chans xb1 !! ch = Some []) as Hempty.
  { rewrite Hch. by apply list_lookup_middle. }
  set (xb2 := set_chans (<[ch := [ev]]> (chans xb1)) (set_inbound rest xb1)).
  assert (readIteration xb1 = Done None xb2) as Hread.
  { eapply (readIteration_dispatch xb1
              (frameATCommandResponse :: id :: g0 :: g1 :: st :: data)
              rest id ev).
    - cbn [length]. lia.
    - rewrite Hin1, Hin. reflexivity.
    - apply classify_response.
    - unfold dispatch. rewrite decide_True by done.
      cbn [idMap set_inbound set_port chans]. rewrite Hmap, lookup_insert_eq.
      rewrite Hempty. reflexivity. }
  assert (turn ch xb1 = Done None xb2) as Hturn1.
  { unfold turn, takeEvent. run. by rewrite Hempty, Hread. }
  (* second turn: the caller takes it *)
  set (xb3 := set_chans (<[ch := []]> (chans xb2)) xb2).
  assert (turn ch xb2 = Done (Some ev) xb3) as Hturn2.
  { apply turn_take. cbn [chans xb2 set_chans].
    apply list_lookup_insert_eq. by eapply lookup_lt_Some. }
  assert (recv ch xb1 = Done ev xb3) as Hrecv.
  { unfold recv. cbn [Nat.add recv_]. run. by rewrite Hturn1, Hturn2. }
  unfold defer, awaitResponse. run. rewrite Hrecv. unfold ev.
  cbv beta iota.
  destruct (validateATResponse cmd _);
    (eexists; split; [reflexivity|]); cbn;
    by rewrite Hmap, delete_insert_eq.
Qed.

End answered.

Section examples.

Lemma fresh_wf input : wf (fresh input).
Proof. apply Open_wf. Qed.


(** The first 257 identifiers of a fresh driver: 1 to 255, then 1 and 2. *)
Lemma allocate_wraps :
  value (allocate 257 (fresh [])) = Some (seqZ 1 255 ++ [1; 2]).
Proof. vm_compute. reflexivity. Qed.


Lemma gather_returns_witness :
  (gather nodeOfEvent 0 0 [sampleNode] (listening [] [])
   = Done ([sampleNode], None) (listening [] [])) ∧
  (gather nodeOfEvent 3 0 [sampleNode] (listening [] [])
   = Done ([sampleNode], None) (listening [] [])) ∧
  (∃ e, gather nodeOfEvent 1 0 [sampleNode]
          (listening
             [ATResponseEv (mkATCommandResponse atNodeDiscover CSError [])] [])
        = Done ([sampleNode], Some e)
            (set_chans
               (<[0%nat := []]>
                  (chans
                     (listening
                        [ATResponseEv
                           (mkATCommandResponse atNodeDiscover CSError [])]
                        [])))
               (listening
                  [ATResponseEv
                     (mkATCommandResponse atNodeDiscover CSError [])] []))) ∧
  (gather nodeOfEvent 1 0 [sampleNode] (listening [statusEvent] [])
   = Done ([], Some (ErrWrongFrame statusEvent))
       (set_chans (<[0%nat := []]> (chans (listening [statusEvent] [])))
          (listening [statusEvent] []))).
Proof.
  destruct gather_returns as (Hdeadline & Hsilence & Hevent).
  split; [|split; [|split]].
  - apply (Hdeadline 0%nat [sampleNode] []).
  - apply (Hsilence 3%nat 0%nat [sampleNode] [] (listening [] []));
      reflexivity.
  - destruct (Hevent 0%nat 0%nat
                (ATResponseEv (mkATCommandResponse atNodeDiscover CSError []))
                []
                (listening
                   [ATResponseEv
                      (mkATCommandResponse atNodeDiscover CSError [])] []))
      as (H & _ & _); [reflexivity|].
    apply (H [sampleNode] (mkATCommandResponse atNodeDiscover CSError []));
      [reflexivity|].
    right; left. cbn. unfold CSError, CSOK. lia.
  - destruct (Hevent 0%nat 0%nat statusEvent []
                (listening [statusEvent] []))
      as (_ & _ & H); [reflexivity|].
    apply (H ltac:(intros res; discriminate) [sampleNode] []).
Defined.

(** C3 fails for an event of the wrong type.  The module answers the
    discovery with one node and then a transmit status with the frame id of
    the request arrives: a call whose deadline falls after the node returns
    that node, a call that goes on to receive the transmit status returns the
    error with no record at all. *)
Lemma NodeDiscover_wrong_frame_loses_records :
  value (NodeDiscover 2 xbDiscover) = Some ([sampleNode], None) ∧
  value (NodeDiscover 4 xbDiscover)
  = Some ([], Some (ErrWrongFrame statusEvent)) ∧
  [] ≠ [sampleNode].
Proof. repeat split; try (vm_compute; reflexivity). discriminate. Qed.

Lemma Transmit_size_limit_witness :
  ∃ err xb',
    Transmit 0 0xFFFE 0 0 [0x68; 0x69] (fresh []) = Done err xb' ∧
    ((∃ e, err = Some e ∧ is_size_error e = true)
     ↔ Z.of_nat (length [0x68; 0x69]) > 65516) ∧
    (Z.of_nat (length [0x68; 0x69]) > 65516 →
       err = Some (ErrDataTooLong (Z.of_nat (length [0x68; 0x69])))
       ∧ xb' = fresh []) ∧
    (Z.of_nat (length [0x68; 0x69]) ≤ 65516 →
       err = nextAnswer (fresh []) ∧
       ∃ buf, writes (port xb') = writes (port (fresh [])) ++ [buf] ∧
              buf = frame (transmitPayload (nextID (frameID (fresh [])))
                             0 0xFFFE 0 0 [0x68; 0x69]) ∧
              Z.of_nat (length buf)
              = 4 + 14 + Z.of_nat (length [0x68; 0x69])).
Proof.
  exact (Transmit_size_limit (fresh []) 0 0xFFFE 0 0 [0x68; 0x69]
           (fresh_wf [])).
Defined.

(** "hi" sent to the coordinator with frame id 3. *)
Lemma Transmit_hi :
  written (Transmit 0 0xFFFE 0 0 [0x68; 0x69] (set_frameID 2 (fresh [])))
  = [[0x7E; 0x00; 0x10; 0x10; 0x03; 0; 0; 0; 0; 0; 0; 0; 0; 0xFF; 0xFE;
      0x00; 0x00; 0x68; 0x69; 0x1E]].
Proof. vm_compute. reflexivity. Qed.

(** Data of 65520 and of 65516 bytes, on a fresh driver. *)
Lemma Transmit_65520_and_65516 :
  value (Transmit 0 0xFFFE 0 0 (replicate (Z.to_nat 65520) 0) (fresh []))
  = Some (Some (ErrDataTooLong 65520)) ∧
  written (Transmit 0 0xFFFE 0 0 (replicate (Z.to_nat 65520) 0) (fresh []))
  = [] ∧
  value (Transmit 0 0xFFFE 0 0 (replicate (Z.to_nat 65516) 0) (fresh []))
  = Some None ∧
  (λ buf, Z.of_nat (length buf))
    <$> written (Transmit 0 0xFFFE 0 0 (replicate (Z.to_nat 65516) 0)
                   (fresh []))
  = [65534].
Proof. repeat split; vm_compute; reflexivity. Qed.

(** C6 fails for a value of 2^63 or more.  The module answers [BD] with
    eight bytes 0xFF: the decoded value is 2^64 - 1, above 7, and the call
    returns -1. *)
Lemma InterfaceDataRate_wraps_to_negative :
  value (atCommand atInterfaceDataRate [] xbRateMax)
  = Some (replicate 8 0xff, None) ∧
  decodeUint (replicate 8 0xff) = 2 ^ 64 - 1 ∧
  7 < decodeUint (replicate 8 0xff) ∧
  value (InterfaceDataRate xbRateMax) = Some (-1, None) ∧
  -1 ≠ decodeUint (replicate 8 0xff).
Proof. repeat split; try (vm_compute; reflexivity). vm_compute. discriminate. Qed.

Lemma InterfaceDataRate_value_witness :
  ∃ r, InterfaceDataRate xbRate900
       = Done (r, None) (final (atCommand atInterfaceDataRate [] xbRate900)) ∧
    0 ≤ decodeUint [0; 0; 3; 0x84] < 2 ^ 64 ∧
    (decodeUint [0; 0; 3; 0x84] ≤ 7 →
       standardDataRates !! Z.to_nat (decodeUint [0; 0; 3; 0x84]) = Some r) ∧
    (7 < decodeUint [0; 0; 3; 0x84] < 2 ^ 63 →
       r = decodeUint [0; 0; 3; 0x84]) ∧
    (2 ^ 63 ≤ decodeUint [0; 0; 3; 0x84] →
       r = decodeUint [0; 0; 3; 0x84] - 2 ^ 64) ∧
    (decodeUint [0; 0; 3; 0x84] = 3 → r = 9600) ∧
    (decodeUint [0; 0; 3; 0x84] = 0x384 → r = 900).
Proof.
  apply (InterfaceDataRate_value xbRate900 [0; 0; 3; 0x84]).
  - repeat constructor; unfold is_byte; lia.
  - apply value_final. vm_compute. reflexivity.
Defined.

(** The module reads back 3, and 0x384 in four bytes and in two. *)
Lemma InterfaceDataRate_readings :
  value (InterfaceDataRate
           (fresh (response 1 atInterfaceDataRate CSOK [3])))
  = Some (9600, None) ∧
  value (InterfaceDataRate xbRate900) = Some (900, None) ∧
  value (InterfaceDataRate
           (fresh (response 1 atInterfaceDataRate CSOK [3; 0x84])))
  = Some (900, None).
Proof. repeat split; vm_compute; reflexivity. Qed.


(** The serial number 0013A200 40A1B2C3, and the two requests on the wire. *)
Lemma SerialNumber_run :
  value (SerialNumber xbSerial) = Some (0x0013A20040A1B2C3, None) ∧
  written (SerialNumber xbSerial)
  = [[0x7E; 0x00; 0x04; 0x08; 0x01; 0x53; 0x48; 0x5B];
     [0x7E; 0x00; 0x04; 0x08; 0x02; 0x53; 0x4C; 0x56]].
Proof. split; vm_compute; reflexivity. Qed.

Lemma APIEnabled_panics_on_error_witness :
  @nil Z = [] ∧ APIEnabled xbAPError = Panic IndexOutOfRange.
Proof.
  apply (APIEnabled_panics_on_error xbAPError [] ErrResponse
           (final (atCommand atAPIEnable [] xbAPError))).
  apply value_final. vm_compute. reflexivity.
Defined.

Lemma reader_panics_on_short_frame_witness :
  (readFrame (inbound (port (fresh (frame [frameATCommandResponse; 1; 83]))))
   = GotFrame [frameATCommandResponse; 1; 83] [] ∧
   readIteration (fresh (frame [frameATCommandResponse; 1; 83]))
   = Panic IndexOutOfRange) ∧
  (readFrame
     (inbound (port (fresh (frame [frameZigBeeTransmitStatus; 1; 0; 0; 0; 0]))))
   = GotFrame [frameZigBeeTransmitStatus; 1; 0; 0; 0; 0] [] ∧
   readIteration (fresh (frame [frameZigBeeTransmitStatus; 1; 0; 0; 0; 0]))
   = Panic IndexOutOfRange) ∧
  (readFrame
     (inbound (port (fresh (frame (frameZigBeeReceivePacket
                                     :: replicate 10 0)))))
   = GotFrame (frameZigBeeReceivePacket :: replicate 10 0) [] ∧
   readIteration (fresh (frame (frameZigBeeReceivePacket :: replicate 10 0)))
   = Panic IndexOutOfRange).
Proof.
  split; [|split].
  - apply (reader_panics_on_short_frame _ [frameATCommandResponse; 1; 83] []).
    + vm_compute. reflexivity.
    + cbn. lia.
    + left. split; [reflexivity|cbn; lia].
  - apply (reader_panics_on_short_frame _
             [frameZigBeeTransmitStatus; 1; 0; 0; 0; 0] []).
    + vm_compute. reflexivity.
    + cbn. lia.
    + right; left. split; [reflexivity|cbn; lia].
  - apply (reader_panics_on_short_frame _
             (frameZigBeeReceivePacket :: replicate 10 0) []).
    + vm_compute. reflexivity.
    + cbn. lia.
    + right; right. split; [reflexivity|cbn; lia].
Defined.

Lemma NodeDiscover_short_tail_panics_witness :
  gather nodeOfEvent 1 0 []
    (listening
       [ATResponseEv (mkATCommandResponse atNodeDiscover CSOK shortNodeData)]
       [])
  = Panic IndexOutOfRange.
Proof.
  apply (NodeDiscover_short_tail_panics 0 0
           (mkATCommandResponse atNodeDiscover CSOK shortNodeData) [] []
           _ 1%nat).
  - reflexivity.
  - reflexivity.
  - cbn. lia.
  - reflexivity.
  - cbn. lia.
Defined.

(** Two nodes answer a discovery and then nothing more arrives: the call
    returns both, and no error. *)
Lemma NodeDiscover_two_nodes :
  value (NodeDiscover 9
           (fresh (response 1 atNodeDiscover CSOK nodeData
                     ++ response 1 atNodeDiscover CSOK nodeData)))
  = Some ([sampleNode; sampleNode], None).
Proof. vm_compute. reflexivity. Qed.

(** The same record sent by the module in answer to a discovery. *)
Lemma NodeDiscover_short_record_run :
  NodeDiscover 2 (fresh (response 1 atNodeDiscover CSOK shortNodeData))
  = Panic IndexOutOfRange.
Proof. vm_compute. reflexivity. Qed.

End examples.

Section at_command_value.

Lemma at_bytes (w : list Z) a b c d val :
  (7 + length val ≤ length w)%nat →
  take (4 + length val)
    (drop 3
       (copy_at (<[6%nat:=d]> (<[5%nat:=c]> (<[4%nat:=b]> (<[3%nat:=a]> w))))
          7 val))
  = [a; b; c; d] ++ val.
Proof.
  intros H. do 7 (destruct w as [|? w]; [cbn in H; lia|]).
  cbn in H. unfold copy_at. cbn [insert list_insert take length Nat.sub].
  rewrite Nat.sub_0_r, (take_ge val) by lia.
  cbn [app Nat.add drop take]. do 4 f_equal.
  rewrite take_0. cbn [app]. by rewrite take_app_length.
Qed.

(** [atCommand] up to the point where the frame goes to the device. *)
Lemma atCommand_unfold cmd val xb :
  Z.of_nat (length val) ≤ 65528 →
  atCommand cmd val xb
  = let id := nextID (frameID xb) in
    let xa := poke 6 cmd.2 (poke 5 cmd.1 (poke 4 id (poke 3 frameATCommand
                (set_frameID id xb)))) in
    let xw := if decide (length val ≠ 0%nat)
              then set_wbuf (copy_at (wbuf xa) 7 val) xa else xa in
    let xr := set_idMap (<[id := length (chans xb)]> (idMap xb))
                (set_chans (chans xb ++ [[]]) xw) in
    defer (unregisterListener id)
      (err ← writeFrame (4 + Z.of_nat (length val));
       awaitResponse cmd (length (chans xb)) err) xr.
Proof.
  intros Hlen. unfold atCommand. rewrite decide_False by lia.
  unfold defer, awaitResponse. run.
  rewrite nextFrameID_eq. cbv beta iota. rewrite putATHeader_eq.
  cbv beta iota zeta.
  destruct (decide (length val ≠ 0%nat)); reflexivity.
Qed.

(** The state in which [atCommand] starts to wait, for a value that fits. *)
Lemma atCommand_sent cmd val xb :
  wf xb → Z.of_nat (length val) ≤ 65528 →
  let id := nextID (frameID xb) in
  ∃ xb1,
    atCommand cmd val xb
    = defer (unregisterListener id)
        (awaitResponse cmd (length (chans xb)) (nextAnswer xb)) xb1
    ∧ wf xb1
    ∧ writes (port xb1)
        = writes (port xb)
            ++ [frame (frameATCommand :: id :: cmd.1 :: cmd.2 :: val)]
    ∧ wscript (port xb1) = tail (wscript (port xb))
    ∧ inbound (port xb1) = inbound (port xb)
    ∧ frameID xb1 = id
    ∧ idMap xb1 = <[id := length (chans xb)]> (idMap xb)
    ∧ chans xb1 = chans xb ++ [[]]
    ∧ eventCh xb1 = eventCh xb
    ∧ eventClosed xb1 = eventClosed xb
    ∧ diag xb1 = diag xb.
Proof.
  intros Hwf Hlen id. rewrite atCommand_unfold by done. fold id.
  cbv zeta.
  set (xa := poke 6 cmd.2 (poke 5 cmd.1 (poke 4 id (poke 3 frameATCommand
               (set_frameID id xb))))).
  set (xw := if decide (length val ≠ 0%nat)
             then set_wbuf (copy_at (wbuf xa) 7 val) xa else xa).
  set (xr := set_idMap _ (set_chans _ xw)).
  pose proof (wf_len _ Hwf) as HL.
  destruct (nextID_spec _ (wf_frameID _ Hwf)) as (Hid & _).
  assert (wf xa) as Hxa.
  { unfold xa. repeat (apply poke_wf; [lia|]). destruct Hwf. by split. }
  assert (length (wbuf xa) = length (wbuf xb)) as HLa
    by (cbn; by rewrite !length_insert).
  assert (wbuf xw !! 0%nat = Some frameDelimiter
          ∧ length (wbuf xw) = length (wbuf xb)
          ∧ take (4 + length val) (drop 3 (wbuf xw))
            = [frameATCommand; id; cmd.1; cmd.2] ++ val
          ∧ chans xw = chans xb ∧ idMap xw = idMap xb
          ∧ port xw = port xb ∧ frameID xw = id
          ∧ eventCh xw = eventCh xb ∧ eventClosed xw = eventClosed xb
          ∧ diag xw = diag xb) as (W0 & WL & Wb & Wc & Wm & Wp & Wf & We & Wcl & Wd).
  { unfold xw. destruct (decide (length val ≠ 0%nat)) as [Hv|Hv].
    - repeat split; try done.
      + pose proof (wf_delim _ Hxa) as Hd. cbn [wbuf set_wbuf].
        unfold copy_at. destruct (wbuf xa) as [|a w']; [done|].
        cbn in Hd. injection Hd as ->. reflexivity.
      + cbn [wbuf set_wbuf]. rewrite copy_at_length; [done|].
        rewrite HLa, HL. pose proof wbufLen_eq. lia.
      + cbn [wbuf set_wbuf]. apply at_bytes.
        cbn [wbuf set_frameID]. rewrite HL. pose proof wbufLen_eq. lia.
    - assert (val = []) as -> by (destruct val; [done|by destruct Hv]).
      repeat split; try done; [apply Hxa|].
      apply header_bytes. cbn [wbuf set_frameID]. rewrite HL. pose proof wbufLen_eq. lia. }
  assert (wf xr) as Hxr.
  { split; cbn.
    - by rewrite WL.
    - done.
    - by rewrite Wf.
    - intros i c [[_ <-]|[_ H]]%lookup_insert_Some;
        rewrite length_app; cbn; [lia|].
      apply (wf_idMap _ Hwf) in H. lia. }
  unfold defer. run. rewrite writeFrame_eq by lia.
  replace (Z.to_nat (4 + Z.of_nat (length val))) with (4 + length val)%nat
    by lia.
  replace (nextAnswer xr) with (nextAnswer xb)
    by (unfold nextAnswer; cbn; by rewrite Wp).
  eexists. split; [reflexivity|]. split; [|split].
  - apply wrote_wf. by apply framed_wf.
  - cbn [wrote set_port port writes set_wbuf]. cbn [xr set_idMap set_chans port wbuf].
    rewrite Wp. f_equal. f_equal. rewrite framed_take.
    + by rewrite Wb.
    + rewrite WL, HL. pose proof wbufLen_eq. lia.
    + done.
  - cbn. rewrite Wp, Wf, We, Wcl, Wd. done.
Qed.

End at_command_value.

Section exchanges.

(** The response with the frame id of a registered listener arrives while
    the listener's channel is empty: the reader delivers it in one pass and
    the caller takes it in the next turn. *)
Lemma recv_reply xb1 ch id got st data rest :
  id ≠ 0 → idMap xb1 !! id = Some ch → chans xb1 !! ch = Some [] →
  Z.of_nat (length data) + 5 ≤ 65535 →
  inbound (port xb1) = response id got st data ++ rest →
  recv ch xb1
  = Done (ATResponseEv (mkATCommandResponse got st data))
         (set_inbound rest xb1).
Proof.
  intros Hid Hmap Hempty Hlen Hin. destruct got as [g0 g1].
  set (ev := ATResponseEv (mkATCommandResponse (g0, g1) st data)).
  set (xb2 := set_chans (<[ch := [ev]]> (chans xb1)) (set_inbound rest xb1)).
  assert (readIteration xb1 = Done None xb2) as Hread.
  { eapply (readIteration_dispatch xb1
              (frameATCommandResponse :: id :: g0 :: g1 :: st :: data)
              rest id ev).
    - cbn [length]. lia.
    - rewrite Hin. reflexivity.
    - apply classify_response.
    - unfold dispatch. rewrite decide_True by done.
      cbn [idMap set_inbound set_port chans]. rewrite Hmap.
      rewrite Hempty. reflexivity. }
  assert (turn ch xb1 = Done None xb2) as Hturn1.
  { unfold turn, takeEvent. run. by rewrite Hempty, Hread. }
  assert (turn ch xb2 = Done (Some ev) (set_inbound rest xb1)) as Hturn2.
  { rewrite (turn_take ch ev [] xb2).
    - f_equal. unfold xb2. cbn [chans set_chans set_inbound set_port].
      rewrite list_insert_insert_eq.
      rewrite list_insert_id by done.
      by destruct xb1.
    - cbn [chans xb2 set_chans].
      apply list_lookup_insert_eq. by eapply lookup_lt_Some. }
  unfold recv. cbn [Nat.add recv_]. run. by rewrite Hturn1, Hturn2.
Qed.

Lemma awaitResponse_reply cmd xb1 ch id got st data rest :
  id ≠ 0 → idMap xb1 !! id = Some ch → chans xb1 !! ch = Some [] →
  Z.of_nat (length data) + 5 ≤ 65535 →
  inbound (port xb1) = response id got st data ++ rest →
  awaitResponse cmd ch None xb1
  = Done (match validateATResponse cmd
                  (mkATCommandResponse got st data) with
          | Some e => ([], Some e)
          | None => (data, None)
          end) (set_inbound rest xb1).
Proof.
  intros Hid Hmap Hempty Hlen Hin. unfold awaitResponse. run.
  rewrite (recv_reply xb1 ch id got st data rest) by done.
  cbv beta iota. by destruct (validateATResponse cmd _).
Qed.

Lemma awaitResponse_silence cmd xb1 ch :
  inbound (port xb1) = [] → chans xb1 !! ch = Some [] →
  awaitResponse cmd ch None xb1 = Blocked xb1.
Proof.
  intros Hin Hempty. unfold awaitResponse, recv. run.
  rewrite recv_silence; [done..|].
  unfold idle, takeEvent. by rewrite Hempty.
Qed.

(** A request that the module answers: the device accepts the write and the
    next bytes to arrive are the response that carries the frame id of the
    request. *)
Lemma atCommand_reply cmd val xb got st data rest :
  wf xb → Z.of_nat (length val) ≤ 65528 →
  nextAnswer xb = None →
  Z.of_nat (length data) + 5 ≤ 65535 →
  inbound (port xb)
    = response (nextID (frameID xb)) got st data ++ rest →
  ∃ xb',
    atCommand cmd val xb
    = Done (match validateATResponse cmd
                    (mkATCommandResponse got st data) with
            | Some e => ([], Some e)
            | None => (data, None)
            end) xb'
    ∧ wf xb'
    ∧ writes (port xb')
        = writes (port xb)
            ++ [frame (frameATCommand :: nextID (frameID xb)
                         :: cmd.1 :: cmd.2 :: val)]
    ∧ wscript (port xb') = tail (wscript (port xb))
    ∧ inbound (port xb') = rest
    ∧ frameID xb' = nextID (frameID xb)
    ∧ idMap xb' = delete (nextID (frameID xb)) (idMap xb)
    ∧ eventCh xb' = eventCh xb
    ∧ eventClosed xb' = eventClosed xb
    ∧ diag xb' = diag xb.
Proof.
  intros Hwf Hval Hans Hlen Hin.
  destruct (nextID_spec _ (wf_frameID _ Hwf)) as (_ & Hid0 & _).
  destruct (atCommand_sent cmd val xb Hwf Hval)
    as (xb1 & -> & Hwf1 & Hw & Hs & Hin1 & Hf & Hmap & Hch & He & Hcl & Hd).
  rewrite Hans. unfold defer.
  rewrite (awaitResponse_reply cmd xb1 (length (chans xb))
             (nextID (frameID xb)) got st data rest); try done.
  - eexists. split; [reflexivity|].
    split.
    { eapply unregisterListener_stable_wf; [apply Hwf1|].
      by split. }
    cbn. rewrite Hmap, delete_insert_eq. done.
  - by rewrite Hmap, lookup_insert_eq.
  - rewrite Hch. by apply list_lookup_middle.
  - by rewrite Hin1.
Qed.

End exchanges.

Section at_command_properties.

Lemma recv_blocked_stable fuel : ∀ ch xb xb',
  recv_ fuel ch xb = Blocked xb' → stable xb xb'.
Proof.
  induction fuel as [|fuel IH]; intros ch xb xb'.
  - intros [= <-]. apply stable_refl.
  - cbn [recv_]. run. intros H.
    destruct (turn ch xb) as [[e|] xb1|p|xb1] eqn:Ht; [done| |done|].
    + eapply stable_trans; [by eapply turn_stable|by eapply IH].
    + exfalso. revert Ht. unfold turn. run.
      destruct (takeEvent ch xb) as [[ev|] xb2| |] eqn:Hk; try done.
      * destruct (readIteration xb2) as [r s| |s] eqn:Hr; try done.
        by apply readIteration_not_blocked in Hr.
      * unfold takeEvent in Hk. by destruct (chans xb !! ch) as [[|? ?]|].
Qed.

Lemma awaitResponse_blocked cmd ch err xb xb' :
  awaitResponse cmd ch err xb = Blocked xb' →
  err = None ∧ stable xb xb' ∧ inbound (port xb') = [] ∧ idle ch xb'.
Proof.
  unfold awaitResponse. destruct err as [e|]; [done|]. run.
  destruct (recv ch xb) as [ev s| |] eqn:Hr.
  - destruct ev; try done. by destruct (validateATResponse cmd res).
  - done.
  - intros [= <-]. split; [done|]. split.
    + by eapply recv_blocked_stable.
    + by eapply recv_blocked.
Qed.

(** X1.  [atCommand] refuses a value of more than 65528 bytes before it
    touches the driver or the device.  For any other value, unless the reader
    crashes while the call waits, the call hands the device exactly one
    buffer, whether it returns or waits for ever: the frame whose payload is
    0x08, the next frame id, the two bytes of the command and the value; and
    it leaves the driver well formed. *)
Theorem atCommand_request_frame cmd val xb :
  wf xb →
  (Z.of_nat (length val) > 65528 →
     atCommand cmd val xb
     = Done ([], Some (ErrValueTooLong (Z.of_nat (length val)))) xb) ∧
  (Z.of_nat (length val) ≤ 65528 →
     (∀ p, atCommand cmd val xb ≠ Panic p) →
     written (atCommand cmd val xb)
     = writes (port xb)
         ++ [frame (frameATCommand :: nextID (frameID xb)
                      :: cmd.1 :: cmd.2 :: val)]
     ∧ wf (final (atCommand cmd val xb))).
Proof.
  intros Hwf. split.
  - intros Hbig. unfold atCommand. by rewrite decide_True by lia.
  - intros Hval.
    destruct (atCommand_sent cmd val xb Hwf Hval)
      as (xb1 & -> & Hwf1 & Hw & _).
    unfold defer.
    destruct (awaitResponse _ _ _ xb1) as [a s|p|s] eqn:Ha; intros Hp.
    + apply awaitResponse_stable in Ha. cbn. split.
      * destruct Ha. congruence.
      * by eapply unregisterListener_stable_wf.
    + by destruct (Hp p).
    + apply awaitResponse_blocked in Ha as (_ & Hst & _). cbn. split.
      * destruct Hst. congruence.
      * by eapply stable_wf.
Qed.

(** X2.  [atCommand] leaves no listener behind: on every return after the
    size check (write error, wrong frame, rejected response, success) the
    frame id it used, the next one of the counter, is out of the registry and
    the other registrations are as they were; the channel it made is the one
    new channel. *)
Theorem atCommand_removes_listener cmd val xb r xb' :
  wf xb → Z.of_nat (length val) ≤ 65528 →
  atCommand cmd val xb = Done r xb' →
  idMap xb' = delete (nextID (frameID xb)) (idMap xb)
  ∧ frameID xb' = nextID (frameID xb)
  ∧ length (chans xb') = S (length (chans xb)).
Proof.
  intros Hwf Hval.
  destruct (atCommand_sent cmd val xb Hwf Hval)
    as (xb1 & -> & Hwf1 & Hw & Hs & Hin1 & Hf & Hmap & Hch & _).
  unfold defer.
  destruct (awaitResponse _ _ _ xb1) as [a s|p|s] eqn:Ha; [|done..].
  intros [= <- <-]. apply awaitResponse_stable in Ha as [].
  cbn. rewrite st_idMap0, Hmap, delete_insert_eq.
  rewrite st_frameID0, st_chans0, Hch, length_app. cbn.
  repeat split; [done|lia].
Qed.

(** X3.  The receive of [atCommand] has no timeout.  When the device
    accepts the write and nothing arrives, the call never returns; and
    whenever the call is left waiting, the write had been accepted, every
    byte that was to arrive has been read, the request is with the device and
    the listener is still registered. *)
Theorem atCommand_waits_for_ever cmd val xb :
  wf xb → Z.of_nat (length val) ≤ 65528 →
  (nextAnswer xb = None → inbound (port xb) = [] →
     ∃ xb', atCommand cmd val xb = Blocked xb') ∧
  (∀ xb', atCommand cmd val xb = Blocked xb' →
     nextAnswer xb = None
     ∧ inbound (port xb') = []
     ∧ writes (port xb')
         = writes (port xb)
             ++ [frame (frameATCommand :: nextID (frameID xb)
                          :: cmd.1 :: cmd.2 :: val)]
     ∧ idMap xb'
         = <[nextID (frameID xb) := length (chans xb)]> (idMap xb)).
Proof.
  intros Hwf Hval.
  destruct (atCommand_sent cmd val xb Hwf Hval)
    as (xb1 & -> & Hwf1 & Hw & Hs & Hin1 & Hf & Hmap & Hch & _).
  unfold defer. split.
  - intros Hans Hin. rewrite Hans, awaitResponse_silence.
    + by eauto.
    + by rewrite Hin1.
    + rewrite Hch. by apply list_lookup_middle.
  - intros xb'.
    destruct (awaitResponse _ _ _ xb1) as [a s|p|s] eqn:Ha; try done.
    intros [= <-].
    apply awaitResponse_blocked in Ha as (Hans & [] & Hin & _).
    repeat split; try done; congruence.
Qed.

(** X4.  When the device refuses the write, [atCommand] returns the error
    of the device and no data without waiting for a response: nothing that
    was to arrive has been read, no event has been queued, and the listener
    is removed. *)
Theorem atCommand_write_error cmd val xb e :
  wf xb → Z.of_nat (length val) ≤ 65528 →
  nextAnswer xb = Some e →
  ∃ xb',
    atCommand cmd val xb = Done ([], Some e) xb'
    ∧ inbound (port xb') = inbound (port xb)
    ∧ eventCh xb' = eventCh xb
    ∧ chans xb' = chans xb ++ [[]]
    ∧ idMap xb' = delete (nextID (frameID xb)) (idMap xb).
Proof.
  intros Hwf Hval Hans.
  destruct (atCommand_sent cmd val xb Hwf Hval)
    as (xb1 & -> & Hwf1 & Hw & Hs & Hin1 & Hf & Hmap & Hch & He & _).
  rewrite Hans. unfold defer, awaitResponse. run.
  eexists. split; [reflexivity|].
  cbn. rewrite Hmap, delete_insert_eq. done.
Qed.


(** X6.  [validateATResponse] accepts exactly the responses that name the
    command and carry the status OK.  It never returns [ErrTXFailure]: the
    status 4 (TX failure) has no case of its own and gives the error of an
    unknown status. *)
Theorem validateATResponse_cases cmd res :
  (validateATResponse cmd res = None
   ↔ ATCommand_ res = cmd ∧ CommandStatus res = CSOK) ∧
  validateATResponse cmd res ≠ Some ErrTXFailure ∧
  (ATCommand_ res = cmd → CommandStatus res = CSTxFailure →
   validateATResponse cmd res = Some (ErrUnknownStatus CSTxFailure)).
Proof.
  unfold validateATResponse, CSOK, CSError, CSInvalidCommand,
    CSInvalidParameter, CSTxFailure.
  destruct (decide (ATCommand_ res ≠ cmd)) as [Hc|Hc].
  { repeat split; try done. by intros [? _]. }
  apply dec_stable in Hc.
  repeat (destruct (decide _) as [Hs|?]; [rewrite ?Hs; repeat split; try done; try (intros [_ ?]; lia); try (intros; lia)|]).
  repeat split; try done.
  - by intros [_ ?].
  - by intros _ ->.
Qed.

End at_command_properties.

Section at_command_examples.

Lemma atCommand_request_frame_witness :
  written (atCommand atNodeIdentifier [65; 66] xbName)
  = writes (port xbName)
      ++ [frame (frameATCommand :: nextID (frameID xbName)
                   :: atNodeIdentifier.1 :: atNodeIdentifier.2 :: [65; 66])]
  ∧ wf (final (atCommand atNodeIdentifier [65; 66] xbName)).
Proof.
  destruct (atCommand_request_frame atNodeIdentifier [65; 66] xbName
              (fresh_wf _)) as [_ H].
  apply H; [cbn; lia|].
  intros p Hp. apply (f_equal value) in Hp. vm_compute in Hp. discriminate.
Defined.

(** The request that sets the node identifier "AB", on the wire. *)
Lemma atCommand_request_bytes :
  written (atCommand atNodeIdentifier [65; 66] xbName)
  = [[0x7E; 0x00; 0x06; 0x08; 0x01; 0x4E; 0x49; 0x41; 0x42; 0xDC]].
Proof. vm_compute. reflexivity. Qed.

Lemma atCommand_removes_listener_witness :
  idMap (final (atCommand atNodeIdentifier [65; 66] xbName))
  = delete (nextID (frameID xbName)) (idMap xbName)
  ∧ frameID (final (atCommand atNodeIdentifier [65; 66] xbName))
    = nextID (frameID xbName)
  ∧ length (chans (final (atCommand atNodeIdentifier [65; 66] xbName)))
    = S (length (chans xbName)).
Proof.
  apply (atCommand_removes_listener atNodeIdentifier [65; 66] xbName
           ([], None)).
  - apply fresh_wf.
  - cbn. lia.
  - apply value_final. vm_compute. reflexivity.
Defined.

Lemma atCommand_waits_for_ever_witness :
  ∃ xb', atCommand atWrite [] (fresh []) = Blocked xb'.
Proof.
  destruct (atCommand_waits_for_ever atWrite [] (fresh []) (fresh_wf _))
    as [H _]; [cbn; lia|].
  apply H; reflexivity.
Defined.

Lemma atCommand_write_error_witness :
  ∃ xb',
    atCommand atWrite [] xbRefusing = Done ([], Some (ErrIO 5)) xb'
    ∧ inbound (port xb') = inbound (port xbRefusing)
    ∧ eventCh xb' = eventCh xbRefusing
    ∧ chans xb' = chans xbRefusing ++ [[]]
    ∧ idMap xb' = delete (nextID (frameID xbRefusing)) (idMap xbRefusing).
Proof.
  apply (atCommand_write_error atWrite [] xbRefusing (ErrIO 5)).
  - apply Open_wf.
  - cbn. lia.
  - reflexivity.
Defined.


End at_command_examples.

Section reader_properties.

Lemma resynced_nil rest xb :
  inbound (port xb) = rest → resynced [] rest xb = xb.
Proof.
  destruct xb as [[w sc i] ? ? ? ? ? ? d]. cbn. intros <-.
  unfold resynced. cbn. by rewrite app_nil_r.
Qed.

Lemma readLoop_resync noise : ∀ fuel rest xb,
  Forall (λ b, b ≠ frameDelimiter) noise →
  inbound (port xb) = noise ++ rest →
  readLoop_ (length noise + fuel) xb = readLoop_ fuel (resynced noise rest xb).
Proof.
  induction noise as [|b noise IH]; intros fuel rest xb Hn Hin.
  - by rewrite resynced_nil.
  - apply Forall_cons in Hn as [Hb Hn].
    cbn [length Nat.add readLoop_]. run.
    unfold readIteration. rewrite Hin. cbn [app readFrame].
    rewrite decide_True by done.
    rewrite (IH fuel rest) by done.
    f_equal. unfold resynced. cbn. by rewrite <- app_assoc.
Qed.

(** X7.  Bytes that arrive before a frame delimiter are skipped one at a
    time, each with its log line, and change nothing else: the reader goes on
    from the first delimiter as if they had not been there. *)
Theorem readLoop_skips_noise noise rest xb :
  Forall (λ b, b ≠ frameDelimiter) noise →
  inbound (port xb) = noise ++ rest →
  readLoop xb = readLoop (resynced noise rest xb).
Proof.
  intros Hn Hin. unfold readLoop. rewrite Hin, length_app.
  replace (S (length noise + length rest))
    with (length noise + S (length rest))%nat by lia.
  by apply readLoop_resync.
Qed.

Lemma readFrame_wire P c rest :
  Z.of_nat (length P) ≤ 65535 →
  sum8 (P ++ [c]) ≠ 0xff →
  readFrame (wire P c ++ rest) = BadChecksum (sum8 (P ++ [c])) rest.
Proof.
  intros HP Hc. unfold wire. cbn [app readFrame].
  rewrite decide_False by (intros H; by apply H).
  rewrite readFull_2.
  cbn [lookup list_lookup default]. unfold id.
  rewrite length_header by lia.
  replace (Z.to_nat (Z.of_nat (length P) + 1)) with (length (P ++ [c]))
    by (rewrite length_app; cbn; lia).
  rewrite readFull_app by done.
  by rewrite decide_True by done.
Qed.

(** X8.  A frame whose checksum byte is not the one its payload calls for
    is dropped: the reader consumes the frame and nothing after it, writes
    one log line and delivers no event. *)
Theorem reader_drops_bad_checksum xb P c rest :
  Z.of_nat (length P) ≤ 65535 →
  is_byte c → c ≠ u8 (0xff - sum8 P) →
  inbound (port xb) = wire P c ++ rest →
  readIteration xb
  = Done None (log (LogBadChecksum (u8 (sum8 P + c))) (set_inbound rest xb)).
Proof.
  intros HP Hc Hne Hin. unfold readIteration. rewrite Hin.
  rewrite readFrame_wire, sum8_snoc; [done..|].
  rewrite sum8_snoc. pose proof (sum8_range P) as Hs.
  unfold is_byte, u8 in *. intros H. apply Hne.
  rewrite (Z.mod_small (255 - _)) by lia.
  pose proof (Z.div_mod (sum8 P + c) 256 ltac:(lia)) as Hd.
  assert (0 ≤ (sum8 P + c) / 256 < 2) as Hq
    by (split; [apply Z.div_pos; lia|apply Z.div_lt_upper_bound; lia]).
  lia.
Qed.

Lemma byteSum_insert (P : list Z) : ∀ i v0 v,
  P !! i = Some v0 → byteSum (<[i := v]> P) = byteSum P - v0 + v.
Proof.
  induction P as [|a P IH]; intros [|i] v0 v H; try done.
  - cbn in H. injection H as ->. unfold byteSum. cbn. lia.
  - cbn in H. change (byteSum (a :: <[i := v]> P) = byteSum (a :: P) - v0 + v).
    unfold byteSum in *. cbn. rewrite (IH i v0 v H). lia.
Qed.

(** X9.  The checksum catches every corruption of a single payload byte:
    a frame in which one byte of the payload has been replaced by another
    value, under the checksum of the original, is dropped with a log line and
    delivers no event. *)
Theorem reader_detects_corrupt_byte xb P i v0 v rest :
  Z.of_nat (length P) ≤ 65535 →
  P !! i = Some v0 → is_byte v0 → is_byte v → v ≠ v0 →
  inbound (port xb) = wire (<[i := v]> P) (u8 (0xff - sum8 P)) ++ rest →
  ∃ c, c ≠ 0xff ∧
       readIteration xb
       = Done None (log (LogBadChecksum c) (set_inbound rest xb)).
Proof.
  intros HP Hi Hv0 Hv Hne Hin.
  assert (sum8 (<[i := v]> P ++ [u8 (0xff - sum8 P)]) ≠ 0xff) as Hc.
  { rewrite sum8_snoc, !sum8_byteSum, (byteSum_insert P i v0 v Hi).
    unfold u8, is_byte in *.
    set (B := byteSum P).
    pose proof (Z.mod_pos_bound B 256 ltac:(lia)) as Hs.
    pose proof (Z.mod_pos_bound (B - v0 + v) 256 ltac:(lia)) as Hs'.
    rewrite (Z.mod_small (255 - _)) by lia.
    pose proof (Z.div_mod B 256 ltac:(lia)) as H1.
    pose proof (Z.div_mod (B - v0 + v) 256 ltac:(lia)) as H2.
    pose proof (Z.div_mod ((B - v0 + v) mod 256 + (255 - B mod 256)) 256
                  ltac:(lia)) as H3.
    intros H. rewrite H in H3. lia. }
  eexists. split; [exact Hc|].
  unfold readIteration. rewrite Hin.
  rewrite readFrame_wire; [done| |done].
  by rewrite length_insert.
Qed.

Lemma classify_full P k :
  P !! 0%nat = Some k → (2 ≤ length P)%nat → (headerLen k ≤ length P)%nat →
  ∃ id ev, classify P = Some (id, ev).
Proof.
  intros H0 H2. unfold headerLen, classify. rewrite H0. cbn.
  destruct P as [|k' [|b1 P]]; cbn in H2; try lia. clear H0 H2.
  destruct (decide (k = frameModemStatus)); [intros _; by eauto|].
  destruct (decide (k = frameATCommandResponse)).
  { intros H. do 3 (destruct P as [|? P]; [cbn in H; lia|]).
    unfold sliceFrom. rewrite decide_True by (cbn; lia). cbn. by eauto. }
  destruct (decide (k = frameZigBeeTransmitStatus)).
  { intros H. do 5 (destruct P as [|? P]; [cbn in H; lia|]).
    cbn. by eauto. }
  destruct (decide (k = frameZigBeeReceivePacket)); [|by eauto].
  intros H. do 10 (destruct P as [|? P]; [cbn in H; lia|]).
  unfold sliceFrom. rewrite decide_True by (cbn; lia). cbn. by eauto.
Qed.

Lemma classify_not_full P k :
  P !! 0%nat = Some k → (2 ≤ length P)%nat → (length P < headerLen k)%nat →
  classify P = None.
Proof.
  intros H0 H2. unfold headerLen.
  destruct (decide (k = frameATCommandResponse)) as [->|].
  { intros. apply classify_short. by left. }
  destruct (decide (k = frameZigBeeTransmitStatus)) as [->|].
  { intros. apply classify_short. right. by left. }
  destruct (decide (k = frameZigBeeReceivePacket)) as [->|]; [|lia].
  intros. apply classify_short. right. by right.
Qed.

Lemma dispatch_open id ev xb :
  wf xb → eventClosed xb = false →
  ∃ xb', dispatch id ev xb = Done tt xb' ∧ port xb' = port xb.
Proof.
  intros Hwf Hcl.
  destruct (decide (id ≠ 0 ∧ is_Some (idMap xb !! id))) as [[Hid [ch Hch]]|Hn].
  - destruct (dispatch_waiter id ev ch xb Hwf Hid Hch) as (xb' & ? & _ & ?).
    by eauto.
  - destruct (dispatch_global id ev xb) as (xb' & ? & _ & ?); [|done|by eauto].
    destruct (decide (id = 0)); [by left|right].
    destruct (idMap xb !! id) eqn:E; [|done].
    destruct Hn. by eauto.
Qed.

(** X10.  While the event channel is open, a checksum-valid frame makes the
    reader panic with an index out of range exactly when its payload is
    shorter than the header of its kind (5 bytes for an AT command response,
    7 for a transmit status, 12 for a receive packet).  Every other frame,
    whatever its kind, is consumed in one pass that leaves the bytes after
    it. *)
Theorem reader_index_panic_iff xb P rest k :
  wf xb → eventClosed xb = false →
  2 ≤ Z.of_nat (length P) ≤ 65535 →
  inbound (port xb) = frame P ++ rest →
  P !! 0%nat = Some k →
  (readIteration xb = Panic IndexOutOfRange
   ↔ (length P < headerLen k)%nat) ∧
  ((headerLen k ≤ length P)%nat →
   ∃ xb', readIteration xb = Done None xb' ∧ inbound (port xb') = rest).
Proof.
  intros Hwf Hcl HP Hin H0.
  assert ((headerLen k ≤ length P)%nat →
          ∃ xb', readIteration xb = Done None xb'
                 ∧ inbound (port xb') = rest) as Hfull.
  { intros Hk. rewrite (readIteration_frame xb P rest) by done.
    destruct (classify_full P k) as (id & ev & ->); [done|lia|done|].
    destruct (dispatch_open id ev (set_inbound rest xb))
      as (xb' & Hd & Hp); [by apply set_inbound_wf|done|].
    exists xb'. run. rewrite Hd, Hp. done. }
  split; [|done]. split.
  - intros Hpanic. destruct (decide (length P < headerLen k)%nat); [done|].
    destruct Hfull as (xb' & Hd & _); [lia|congruence].
  - intros Hk. rewrite (readIteration_frame xb P rest) by done.
    by rewrite (classify_not_full P k) by (done || lia).
Qed.

(** X11.  [Close] closes the event channel and nothing else.  After it, the
    first frame that is not for a registered waiter (a modem status, a
    receive packet, an unknown kind, a response nobody waits for) makes the
    reader panic with a send on a closed channel, while a response for a
    registered waiter is still handed to it. *)
Theorem reader_after_Close xb P rest id ev :
  wf xb →
  2 ≤ Z.of_nat (length P) ≤ 65535 →
  inbound (port xb) = frame P ++ rest →
  classify P = Some (id, ev) →
  (id = 0 ∨ idMap xb !! id = None →
   readIteration (Close xb) = Panic SendOnClosedChannel) ∧
  (∀ ch, id ≠ 0 → idMap xb !! id = Some ch →
         ∃ xb', readIteration (Close xb) = Done None xb'
                ∧ toWaiter ch ev (Close xb) xb').
Proof.
  intros Hwf HP Hin Hc. split.
  - intros Hid. rewrite (readIteration_frame (Close xb) P rest) by done.
    rewrite Hc. run. unfold dispatch.
    replace (if decide (id ≠ 0)
             then idMap (set_inbound rest (Close xb)) !! id else None)
      with (@None nat); [done|].
    cbn. destruct (decide (id ≠ 0)), Hid; congruence.
  - intros ch Hid Hch.
    assert (wf (Close xb)) as Hwf' by (destruct Hwf; by split).
    destruct (dispatch_waiter id ev ch (set_inbound rest (Close xb)))
      as (xb' & Hd & Hw & _); [by apply set_inbound_wf|done|done|].
    exists xb'. split; [|done].
    by eapply (readIteration_dispatch (Close xb) P rest id ev).
Qed.

End reader_properties.

Section big_endian.

Ltac pows :=
  repeat match goal with
         | |- context [2 ^ ?n] =>
             let v := eval vm_compute in (2 ^ n) in change (2 ^ n) with v
         end.

Lemma be64_split x :
  0 ≤ x < 2 ^ 64 →
  x = u8 (Z.shiftr x 56) * 2 ^ 56 + u8 (Z.shiftr x 48) * 2 ^ 48
      + u8 (Z.shiftr x 40) * 2 ^ 40 + u8 (Z.shiftr x 32) * 2 ^ 32
      + u8 (Z.shiftr x 24) * 2 ^ 24 + u8 (Z.shiftr x 16) * 2 ^ 16
      + u8 (Z.shiftr x 8) * 2 ^ 8 + u8 (Z.land x 0xff).
Proof.
  intros H. unfold u8. rewrite !Z.shiftr_div_pow2 by lia.
  change 0xff with (Z.ones 8). rewrite Z.land_ones by lia.
  revert H. pows. intros H. Z.div_mod_to_equations. lia.
Qed.

Lemma be32_split x :
  u8 (Z.shiftr x 24) * 2 ^ 24 + u8 (Z.shiftr x 16) * 2 ^ 16
  + u8 (Z.shiftr x 8) * 2 ^ 8 + u8 (Z.land x 0xff)
  = x mod 2 ^ 32.
Proof.
  unfold u8. rewrite !Z.shiftr_div_pow2 by lia.
  change 0xff with (Z.ones 8). rewrite Z.land_ones by lia.
  pows. Z.div_mod_to_equations. lia.
Qed.

Lemma be16_split x :
  0 ≤ x < 2 ^ 16 →
  x = u8 (Z.shiftr x 8) * 2 ^ 8 + u8 (Z.land x 0xff).
Proof.
  intros H. unfold u8. rewrite !Z.shiftr_div_pow2 by lia.
  change 0xff with (Z.ones 8). rewrite Z.land_ones by lia.
  revert H. pows. intros H. Z.div_mod_to_equations. lia.
Qed.

Lemma lor_mul_low h t k :
  0 ≤ k → 0 ≤ t < 2 ^ k → Z.lor (h * 2 ^ k) t = h * 2 ^ k + t.
Proof.
  intros Hk Ht. rewrite <- Z.shiftl_mul_pow2 by done.
  rewrite lor_shiftl_low by done. by rewrite Z.shiftl_mul_pow2.
Qed.

(** The address of a receive packet, as the reader joins it. *)
Lemma be64_join b1 b2 b3 b4 b5 b6 b7 b8 :
  is_byte b1 → is_byte b2 → is_byte b3 → is_byte b4 →
  is_byte b5 → is_byte b6 → is_byte b7 → is_byte b8 →
  Z.lor (Z.lor (Z.lor (Z.lor (Z.lor (Z.lor (Z.lor
    (u64 (Z.shiftl b1 56)) (u64 (Z.shiftl b2 48)))
    (u64 (Z.shiftl b3 40))) (u64 (Z.shiftl b4 32)))
    (u64 (Z.shiftl b5 24))) (u64 (Z.shiftl b6 16)))
    (u64 (Z.shiftl b7 8))) b8
  = b1 * 2 ^ 56 + b2 * 2 ^ 48 + b3 * 2 ^ 40 + b4 * 2 ^ 32
    + b5 * 2 ^ 24 + b6 * 2 ^ 16 + b7 * 2 ^ 8 + b8.
Proof.
  unfold is_byte, u64. intros.
  rewrite !Z.shiftl_mul_pow2 by lia.
  rewrite !Z.mod_small by (pows; lia).
  rewrite (lor_mul_low b1 (b2 * 2 ^ 48) 56) by (pows; lia).
  replace (b1 * 2 ^ 56 + b2 * 2 ^ 48)
    with ((b1 * 2 ^ 8 + b2) * 2 ^ 48)
    by (pows; lia).
  rewrite (lor_mul_low _ (b3 * 2 ^ 40) 48) by (pows; lia).
  replace ((b1 * 2 ^ 8 + b2) * 2 ^ 48 + b3 * 2 ^ 40)
    with ((b1 * 2 ^ 16 + b2 * 2 ^ 8 + b3) * 2 ^ 40)
    by (pows; lia).
  rewrite (lor_mul_low _ (b4 * 2 ^ 32) 40) by (pows; lia).
  replace ((b1 * 2 ^ 16 + b2 * 2 ^ 8 + b3) * 2 ^ 40 + b4 * 2 ^ 32)
    with ((b1 * 2 ^ 24 + b2 * 2 ^ 16 + b3 * 2 ^ 8 + b4) * 2 ^ 32)
    by (pows; lia).
  rewrite (lor_mul_low _ (b5 * 2 ^ 24) 32) by (pows; lia).
  replace ((b1 * 2 ^ 24 + b2 * 2 ^ 16 + b3 * 2 ^ 8 + b4) * 2 ^ 32 + b5 * 2 ^ 24)
    with ((b1 * 2 ^ 32 + b2 * 2 ^ 24 + b3 * 2 ^ 16 + b4 * 2 ^ 8 + b5) * 2 ^ 24)
    by (pows; lia).
  rewrite (lor_mul_low _ (b6 * 2 ^ 16) 24) by (pows; lia).
  replace ((b1 * 2 ^ 32 + b2 * 2 ^ 24 + b3 * 2 ^ 16 + b4 * 2 ^ 8 + b5) * 2 ^ 24 + b6 * 2 ^ 16)
    with ((b1 * 2 ^ 40 + b2 * 2 ^ 32 + b3 * 2 ^ 24 + b4 * 2 ^ 16 + b5 * 2 ^ 8 + b6) * 2 ^ 16)
    by (pows; lia).
  rewrite (lor_mul_low _ (b7 * 2 ^ 8) 16) by (pows; lia).
  replace ((b1 * 2 ^ 40 + b2 * 2 ^ 32 + b3 * 2 ^ 24 + b4 * 2 ^ 16 + b5 * 2 ^ 8 + b6) * 2 ^ 16 + b7 * 2 ^ 8)
    with ((b1 * 2 ^ 48 + b2 * 2 ^ 40 + b3 * 2 ^ 32 + b4 * 2 ^ 24 + b5 * 2 ^ 16 + b6 * 2 ^ 8 + b7) * 2 ^ 8)
    by (pows; lia).
  rewrite (lor_mul_low _ (b8) 8) by (pows; lia).
  pows. lia.
Qed.

Lemma be16_join n0 n1 :
  is_byte n0 → is_byte n1 →
  Z.lor (u16 (Z.shiftl n0 8)) n1 = n0 * 2 ^ 8 + n1.
Proof.
  unfold is_byte, u16. intros.
  rewrite Z.shiftl_mul_pow2 by lia.
  rewrite Z.mod_small by (pows; lia).
  by rewrite lor_mul_low by (pows; lia).
Qed.

Lemma decodeUint_step v x :
  is_byte x →
  Z.lor (u64 (Z.shiftl (v mod 2 ^ 64) 8)) x = (v * 256 + x) mod 2 ^ 64.
Proof.
  intros Hx. rewrite lor_u64_byte by done. unfold is_byte in Hx.
  pows. Z.div_mod_to_equations. lia.
Qed.

Lemma decodeUint_beValue_fold b : ∀ v,
  bytes b →
  fold_left (λ v b, Z.lor (u64 (Z.shiftl v 8)) b) b (v mod 2 ^ 64)
  = fold_left (λ v x, v * 256 + x) b v mod 2 ^ 64.
Proof.
  induction b as [|x b IH]; intros v Hb; [done|].
  apply Forall_cons in Hb as [Hx Hb]. cbn [fold_left].
  rewrite decodeUint_step by done. by apply IH.
Qed.

Lemma decodeUint_beValue b : bytes b → decodeUint b = beValue b mod 2 ^ 64.
Proof. intros Hb. apply (decodeUint_beValue_fold b 0 Hb). Qed.

Lemma beValue_fold b : ∀ v,
  fold_left (λ v x, v * 256 + x) b v = v * 256 ^ Z.of_nat (length b) + beValue b.
Proof.
  unfold beValue. induction b as [|x b IH]; intros v.
  - cbn. lia.
  - cbn [fold_left length]. rewrite IH, (IH (0 * 256 + x)).
    rewrite Nat2Z.inj_succ, Z.pow_succ_r by lia. lia.
Qed.

Lemma beValue_app b1 b2 :
  beValue (b1 ++ b2) = beValue b1 * 256 ^ Z.of_nat (length b2) + beValue b2.
Proof. unfold beValue at 1. rewrite fold_left_app. apply beValue_fold. Qed.

Lemma beValue_range b :
  bytes b → 0 ≤ beValue b < 256 ^ Z.of_nat (length b).
Proof.
  induction b as [|x b IH] using rev_ind; intros Hb; [cbn; lia|].
  apply Forall_app in Hb as [Hb Hx]. apply Forall_inv in Hx.
  rewrite beValue_app, length_app. cbn [length].
  replace (Z.of_nat (length b + 1)) with (Z.succ (Z.of_nat (length b))) by lia.
  rewrite Z.pow_succ_r by lia. specialize (IH Hb).
  unfold is_byte in Hx. change (beValue [x]) with (0 * 256 + x).
  change (256 ^ Z.of_nat 1) with 256. lia.
Qed.

(** X12.  [decodeUint] reads a byte string as a big-endian number reduced
    modulo 2^64: of up to 8 bytes it gives the number they spell, and of a
    longer string the leading bytes are lost, only the last 8 count. *)
Theorem decodeUint_big_endian b :
  bytes b →
  decodeUint b = beValue b mod 2 ^ 64 ∧
  ((length b ≤ 8)%nat → decodeUint b = beValue b) ∧
  decodeUint b = decodeUint (drop (length b - 8) b).
Proof.
  intros Hb. split; [by apply decodeUint_beValue|]. split.
  - intros Hlen. rewrite decodeUint_beValue by done.
    apply Z.mod_small. pose proof (beValue_range b Hb) as Hr.
    assert (256 ^ Z.of_nat (length b) ≤ 256 ^ 8)
      by (apply Z.pow_le_mono_r; lia).
    change (2 ^ 64) with (256 ^ 8). lia.
  - destruct (decide (length b ≤ 8)%nat) as [Hle|Hgt].
    { replace (length b - 8)%nat with 0%nat by lia. done. }
    rewrite !decodeUint_beValue by (done || by apply Forall_drop).
    rewrite <- (take_drop (length b - 8) b) at 1.
    rewrite beValue_app, length_drop.
    replace (Z.of_nat (length b - (length b - 8))) with 8 by lia.
    change (256 ^ 8) with (2 ^ 64).
    by rewrite Z.add_comm, Z.mod_add by lia.
Qed.

End big_endian.

Section typed_properties.

Lemma validateATResponse_ok cmd data :
  validateATResponse cmd (mkATCommandResponse cmd CSOK data) = None.
Proof.
  unfold validateATResponse. cbn.
  rewrite decide_False by (intros H; by apply H). by rewrite decide_True.
Qed.

(** What a returning [atCommand] has done to the driver and the device. *)
Lemma atCommand_done cmd val xb r xb' :
  wf xb → Z.of_nat (length val) ≤ 65528 →
  atCommand cmd val xb = Done r xb' →
  wf xb'
  ∧ writes (port xb')
      = writes (port xb)
          ++ [frame (frameATCommand :: nextID (frameID xb)
                       :: cmd.1 :: cmd.2 :: val)]
  ∧ frameID xb' = nextID (frameID xb).
Proof.
  intros Hwf Hval.
  destruct (atCommand_sent cmd val xb Hwf Hval)
    as (xb1 & -> & Hwf1 & Hw & _ & _ & Hf & _).
  unfold defer.
  destruct (awaitResponse _ _ _ xb1) as [a s|p|s] eqn:Ha; [|done..].
  intros [= <- <-]. apply awaitResponse_stable in Ha.
  split; [by eapply unregisterListener_stable_wf|].
  destruct Ha. cbn. split; congruence.
Qed.

(** An accepted request that the module answers with status OK. *)
Lemma atCommand_ok cmd val xb data rest :
  wf xb → Z.of_nat (length val) ≤ 65528 →
  nextAnswer xb = None →
  Z.of_nat (length data) + 5 ≤ 65535 →
  inbound (port xb)
    = response (nextID (frameID xb)) cmd CSOK data ++ rest →
  ∃ xb', atCommand cmd val xb = Done (data, None) xb'
         ∧ inbound (port xb') = rest.
Proof.
  intros Hwf Hval Hans Hlen Hin.
  destruct (atCommand_reply cmd val xb cmd CSOK data rest)
    as (xb' & H & _ & _ & _ & Hin' & _); try done.
  rewrite validateATResponse_ok in H. by eauto.
Qed.

Lemma Transmit_sent xb dest net radius opts data :
  wf xb → Z.of_nat (length data) ≤ 65516 →
  ∃ xb',
    Transmit dest net radius opts data xb = Done (nextAnswer xb) xb'
    ∧ writes (port xb')
        = writes (port xb)
            ++ [frame (transmitPayload (nextID (frameID xb))
                         dest net radius opts data)]
    ∧ inbound (port xb') = inbound (port xb)
    ∧ frameID xb' = nextID (frameID xb)
    ∧ idMap xb' = idMap xb
    ∧ chans xb' = chans xb
    ∧ eventCh xb' = eventCh xb
    ∧ eventClosed xb' = eventClosed xb.
Proof.
  intros Hwf Hfit. unfold Transmit. rewrite decide_False by lia.
  run. rewrite nextFrameID_eq. cbv beta iota.
  rewrite writeFrame_eq by lia.
  eexists. split; [reflexivity|]. split; [|repeat split; reflexivity].
  pose proof wbufLen_eq as HL.
  cbn [wbuf set_wbuf poke set_frameID wrote set_port port writes].
  f_equal. f_equal.
  set (w := copy_at _ 17 data).
  assert (length w = length (wbuf xb)) as Hlw.
  { pose proof (wf_len _ Hwf).
    unfold w. rewrite copy_at_length; rewrite !length_insert; lia. }
  rewrite framed_take.
  - f_equal.
    replace (Z.to_nat (14 + Z.of_nat (length data)))
      with (14 + length data)%nat by lia.
    apply transmit_bytes. rewrite (wf_len _ Hwf). lia.
  - rewrite Hlw, (wf_len _ Hwf). lia.
  - pose proof (wf_delim _ Hwf) as Hd. unfold w, copy_at.
    destruct (wbuf xb) as [|a w']; [done|].
    cbn in Hd. injection Hd as ->. reflexivity.
Qed.

(** X13.  The addresses survive the trip through the two codecs of the
    driver: [Transmit] lays the 64-bit and the 16-bit destination out
    big-endian in its request, and the reader joins the same ten bytes, found
    in a receive packet, into the same two addresses. *)
Theorem address_loopback xb dest net radius opts data opt payload :
  wf xb → 0 ≤ dest < 2 ^ 64 → 0 ≤ net < 2 ^ 16 →
  Z.of_nat (length data) ≤ 65516 →
  (∃ xb',
     Transmit dest net radius opts data xb = Done (nextAnswer xb) xb'
     ∧ writes (port xb')
         = writes (port xb)
             ++ [frame (frameZigBeeTransmitRequest :: nextID (frameID xb)
                          :: addressBytes dest net
                          ++ radius :: opts :: data)]) ∧
  classify (frameZigBeeReceivePacket :: addressBytes dest net
              ++ opt :: payload)
  = Some (0, ReceivePacketEv (mkReceivePacket dest net opt payload)).
Proof.
  intros Hwf Hdest Hnet Hfit. split.
  - destruct (Transmit_sent xb dest net radius opts data Hwf Hfit)
      as (xb' & H & Hw & _).
    by eauto.
  - unfold classify, addressBytes. cbn [app lookup list_lookup mbind option_bind].
    unfold frameModemStatus, frameATCommandResponse,
      frameZigBeeTransmitStatus, frameZigBeeReceivePacket.
    rewrite !decide_False by done. rewrite decide_True by done.
    unfold sliceFrom. rewrite decide_True by (cbn; lia).
    cbn [mbind option_bind drop].
    rewrite be64_join by apply u8_range.
    rewrite be16_join by apply u8_range.
    by rewrite <- be64_split, <- be16_split.
Qed.

(** X14.  [Transmit] registers no listener, so the status report of a
    transmission belongs to nobody: unless the frame id is that of a pending
    request, the reader hands the transmit status that answers it to the
    event channel of the application. *)
Theorem Transmit_status_unclaimed
    xb dest net radius opts data err xb1 a0 a1 rc dl ds rest :
  wf xb → Z.of_nat (length data) ≤ 65516 →
  idMap xb !! nextID (frameID xb) = None →
  eventClosed xb = false →
  is_byte a0 → is_byte a1 →
  inbound (port xb)
    = frame [frameZigBeeTransmitStatus; nextID (frameID xb);
             a0; a1; rc; dl; ds] ++ rest →
  Transmit dest net radius opts data xb = Done err xb1 →
  ∃ xb2,
    readIteration xb1 = Done None xb2
    ∧ toGlobal (TransmitStatusEv (mkTransmitStatus (a0 * 256 + a1) rc dl ds))
        xb1 xb2
    ∧ inbound (port xb2) = rest.
Proof.
  intros Hwf Hfit Hmap Hcl Ha0 Ha1 Hin.
  destruct (Transmit_sent xb dest net radius opts data Hwf Hfit)
    as (xb' & -> & _ & Hin' & Hf & Hm & _ & _ & Hcl').
  intros [= <- <-].
  set (ev := TransmitStatusEv (mkTransmitStatus (a0 * 256 + a1) rc dl ds)).
  destruct (dispatch_global (nextID (frameID xb)) ev (set_inbound rest xb'))
    as (xb2 & Hd & Hg & Hp).
  { right. cbn. by rewrite Hm. }
  { cbn. by rewrite Hcl'. }
  exists xb2. split; [|split; [done|by rewrite Hp]].
  eapply (readIteration_dispatch xb'
            [frameZigBeeTransmitStatus; nextID (frameID xb);
             a0; a1; rc; dl; ds] rest); [cbn; lia|by rewrite Hin'| |done].
  unfold classify. cbn [lookup list_lookup mbind option_bind].
  unfold frameModemStatus, frameATCommandResponse,
    frameZigBeeTransmitStatus.
  rewrite !decide_False by done. rewrite decide_True by done.
  cbn [mbind option_bind]. by rewrite be16_join.
Qed.

Lemma decodeUint_be64 id :
  0 ≤ id < 2 ^ 64 →
  decodeUint
    [u8 (Z.shiftr id 56); u8 (Z.shiftr id 48); u8 (Z.shiftr id 40);
     u8 (Z.shiftr id 32); u8 (Z.shiftr id 24); u8 (Z.shiftr id 16);
     u8 (Z.shiftr id 8); u8 (Z.land id 0xff)] = id.
Proof.
  intros Hid. rewrite decodeUint_beValue by (repeat constructor; apply u8_range).
  rewrite (be64_split id Hid) at 9.
  unfold beValue. cbn [fold_left].
  rewrite Z.mod_small.
  - change (2 ^ 56) with (256 * 256 * 256 * 256 * 256 * 256 * 256).
    change (2 ^ 48) with (256 * 256 * 256 * 256 * 256 * 256).
    change (2 ^ 40) with (256 * 256 * 256 * 256 * 256).
    change (2 ^ 32) with (256 * 256 * 256 * 256).
    change (2 ^ 24) with (256 * 256 * 256).
    change (2 ^ 16) with (256 * 256).
    change (2 ^ 8) with 256. lia.
  - pose proof (u8_range (Z.shiftr id 56)). pose proof (u8_range (Z.shiftr id 48)).
    pose proof (u8_range (Z.shiftr id 40)). pose proof (u8_range (Z.shiftr id 32)).
    pose proof (u8_range (Z.shiftr id 24)). pose proof (u8_range (Z.shiftr id 16)).
    pose proof (u8_range (Z.shiftr id 8)). pose proof (u8_range (Z.land id 0xff)).
    unfold is_byte in *. change (2 ^ 64) with 18446744073709551616. lia.
Qed.

(** X15.  The extended PAN id survives the round trip.  [SetExtendedPANID]
    sends the identifier as eight bytes that [decodeUint] reads back as the
    identifier, so that a module which answers the [ID] query with the bytes
    it was given makes [ExtendedPANID] return the identifier that was set. *)
Theorem ExtendedPANID_round_trip id xb err xb1 :
  wf xb → 0 ≤ id < 2 ^ 64 →
  SetExtendedPANID id xb = Done err xb1 →
  ∃ val,
    length val = 8%nat ∧ decodeUint val = id ∧
    writes (port xb1)
    = writes (port xb)
        ++ [frame (frameATCommand :: nextID (frameID xb) :: 73 :: 68 :: val)] ∧
    ∀ xb2 rest,
      wf xb2 → nextAnswer xb2 = None →
      inbound (port xb2)
        = response (nextID (frameID xb2)) atExtendedPANID CSOK val ++ rest →
      ∃ xb3, ExtendedPANID xb2 = Done (id, None) xb3.
Proof.
  intros Hwf Hid. unfold SetExtendedPANID. run.
  set (val := [_; _; _; _; _; _; _; _]).
  destruct (atCommand atExtendedPANID val xb) as [[b e] s| |] eqn:Ha;
    [|done..].
  intros [= <- <-].
  apply atCommand_done in Ha as (_ & Hw & _); [|done|cbn; lia].
  exists val. split; [done|]. split; [by apply decodeUint_be64|].
  split; [done|].
  intros xb2 rest Hwf2 Hans Hin.
  destruct (atCommand_ok atExtendedPANID [] xb2 val rest)
    as (xb3 & H3 & _); try done; [cbn; lia..|].
  exists xb3. unfold ExtendedPANID. run. rewrite H3. cbv beta iota.
  unfold val. by rewrite decodeUint_be64.
Qed.

Lemma decodeUint_be32 si :
  decodeUint [u8 (Z.shiftr si 24); u8 (Z.shiftr si 16); u8 (Z.shiftr si 8);
              u8 (Z.land si 0xff)] = si mod 2 ^ 32.
Proof.
  rewrite decodeUint_beValue by (repeat constructor; apply u8_range).
  rewrite <- (be32_split si).
  unfold beValue. cbn [fold_left].
  rewrite Z.mod_small.
  - change (2 ^ 24) with (256 * 256 * 256).
    change (2 ^ 16) with (256 * 256).
    change (2 ^ 8) with 256. lia.
  - pose proof (u8_range (Z.shiftr si 24)). pose proof (u8_range (Z.shiftr si 16)).
    pose proof (u8_range (Z.shiftr si 8)). pose proof (u8_range (Z.land si 0xff)).
    unfold is_byte in *. change (2 ^ 64) with 18446744073709551616. lia.
Qed.

(** The index or rate that [SetInterfaceDataRate] sends. *)
Lemma data_rate_index baud :
  (if decide ((match list_find (λ b, b = baud) standardDataRates with
               | Some (i, _) => Z.of_nat i
               | None => -1
               end) < 0)
   then baud
   else match list_find (λ b, b = baud) standardDataRates with
        | Some (i, _) => Z.of_nat i
        | None => -1
        end)
  = match list_find (λ b, b = baud) standardDataRates with
    | Some (i, _) => Z.of_nat i
    | None => baud
    end.
Proof.
  destruct (list_find _ _) as [[i ?]|]; [|done].
  by rewrite decide_False by lia.
Qed.

(** X16.  The data rate survives the round trip when it is one of the
    eight standard rates, sent as its index, or a rate above 7 that fits 32
    bits, sent as it is: a module that answers the [BD] query with the four
    bytes it was given makes [InterfaceDataRate] return the rate that was
    set.  A rate from 0 to 7 does not: it is sent as it is and read back as
    the standard rate of that index. *)
Theorem InterfaceDataRate_round_trip baud xb err xb1 :
  wf xb →
  SetInterfaceDataRate baud xb = Done err xb1 →
  ∃ val,
    length val = 4%nat ∧
    writes (port xb1)
    = writes (port xb)
        ++ [frame (frameATCommand :: nextID (frameID xb) :: 66 :: 68 :: val)] ∧
    ∀ xb2 rest,
      wf xb2 → nextAnswer xb2 = None →
      inbound (port xb2)
        = response (nextID (frameID xb2)) atInterfaceDataRate CSOK val
            ++ rest →
      ∃ r xb3,
        InterfaceDataRate xb2 = Done (r, None) xb3 ∧
        (baud ∈ standardDataRates ∨ 7 < baud < 2 ^ 32 → r = baud) ∧
        (0 ≤ baud ≤ 7 →
         standardDataRates !! Z.to_nat baud = Some r ∧ r ≠ baud).
Proof.
  intros Hwf. unfold SetInterfaceDataRate. cbv zeta. rewrite data_rate_index.
  set (si := match list_find _ _ with Some (i, _) => Z.of_nat i | None => baud end).
  run. set (val := [_; _; _; _]).
  destruct (atCommand atInterfaceDataRate val xb) as [[b e] s| |] eqn:Ha;
    [|done..].
  intros [= <- <-].
  apply atCommand_done in Ha as (_ & Hw & _); [|done|cbn; lia].
  exists val. split; [done|]. split; [done|].
  intros xb2 rest Hwf2 Hans Hin.
  destruct (atCommand_ok atInterfaceDataRate [] xb2 val rest)
    as (xb3 & H3 & _); try done; [cbn; lia..|].
  unfold InterfaceDataRate. run. rewrite H3. cbv beta iota zeta.
  unfold val. rewrite decodeUint_be32.
  assert (baud ∈ standardDataRates →
          ∃ i, si = Z.of_nat i ∧ standardDataRates !! i = Some baud) as Hstd.
  { unfold si, standardDataRates. intros Hb.
    repeat (apply elem_of_cons in Hb as [->|Hb];
            [eexists; split; reflexivity|]).
    by apply elem_of_nil in Hb. }
  assert (baud ∉ standardDataRates → si = baud) as Hnon.
  { unfold si. intros Hb.
    destruct (list_find _ _) as [[i x]|] eqn:Hf; [|done].
    apply list_find_Some in Hf as (Hi & -> & _).
    destruct Hb. by eapply list_elem_of_lookup_2. }
  destruct (decide (baud ∈ standardDataRates)) as [Hin'|Hout].
  - destruct (Hstd Hin') as (i & -> & Hi).
    assert (i < 8)%nat as Hi8 by (apply lookup_lt_Some in Hi; cbn in Hi; lia).
    rewrite Z.mod_small by (change (2 ^ 32) with 4294967296; lia).
    rewrite decide_True by lia. rewrite Nat2Z.id, Hi.
    eexists _, _. split; [reflexivity|]. split; [done|].
    intros Hsmall. exfalso. revert Hin' Hsmall. unfold standardDataRates.
    intros Hb ?.
    repeat (apply elem_of_cons in Hb as [->|Hb]; [lia|]).
    by apply elem_of_nil in Hb.
  - rewrite (Hnon Hout).
    destruct (decide (0 ≤ baud ≤ 7)) as [Hsmall|Hbig].
    + rewrite Z.mod_small by (change (2 ^ 32) with 4294967296; lia).
      rewrite decide_True by lia.
      destruct (standardDataRates !! Z.to_nat baud) as [r|] eqn:Hr.
      * eexists _, _. split; [reflexivity|]. split.
        { intros [?|?]; [done|lia]. }
        intros _. split; [done|]. intros ->.
        destruct Hout. by eapply list_elem_of_lookup_2.
      * apply lookup_ge_None in Hr. cbn in Hr. lia.
    + destruct (decide (baud mod 2 ^ 32 ≤ 7)) as [Hm|Hm].
      * destruct (standardDataRates !! Z.to_nat (baud mod 2 ^ 32))
          as [r|] eqn:Hr.
        -- eexists _, _. split; [reflexivity|]. split; [|lia].
           intros [?|?]; [done|].
           rewrite Z.mod_small in Hm
             by (change (2 ^ 32) with 4294967296 in *; lia). lia.
        -- apply lookup_ge_None in Hr. cbn in Hr.
           pose proof (Z.mod_pos_bound baud (2 ^ 32) ltac:(lia)). lia.
      * eexists _, _. split; [reflexivity|]. split; [|lia].
        intros [?|?]; [done|].
        rewrite Z.mod_small by lia. unfold int_of_u64.
        rewrite decide_True; [done|].
        change (2 ^ 32) with 4294967296 in *.
        change (2 ^ 63) with 9223372036854775808. lia.
Qed.

Lemma awaitResponse_too_long cmd ch err xb b n xb' :
  awaitResponse cmd ch err xb = Done (b, Some (ErrValueTooLong n)) xb' →
  err = Some (ErrValueTooLong n).
Proof.
  unfold awaitResponse. destruct err as [e|]; run.
  - by intros [= _ -> _].
  - destruct (recv ch xb) as [ev s| |]; [|done..].
    destruct ev; try done.
    unfold validateATResponse. by repeat (destruct (decide _); try done).
Qed.

(** X17.  [SetNodeIdentifier] sends at most the first 20 bytes of the
    identifier: whatever the length of the string, the request carries its
    prefix of 20 bytes and is never refused for its size. *)
Theorem SetNodeIdentifier_truncates ni xb err xb' :
  wf xb →
  SetNodeIdentifier ni xb = Done err xb' →
  writes (port xb')
  = writes (port xb)
      ++ [frame (frameATCommand :: nextID (frameID xb) :: 78 :: 73
                   :: take 20 ni)]
  ∧ err ≠ Some (ErrValueTooLong (Z.of_nat (length ni)))
  ∧ wf xb'.
Proof.
  intros Hwf. unfold SetNodeIdentifier. cbv zeta.
  replace (if decide (20 < length ni)%nat then take 20 ni else ni)
    with (take 20 ni)
    by (destruct (decide _); [done|by rewrite take_ge by lia]).
  assert (Z.of_nat (length (take 20 ni)) ≤ 65528) as Hlen
    by (rewrite length_take; lia).
  run.
  destruct (atCommand atNodeIdentifier (take 20 ni) xb) as [[b e] s| |] eqn:Ha;
    [|done..].
  intros [= <- <-].
  destruct (atCommand_sent atNodeIdentifier (take 20 ni) xb Hwf Hlen)
    as (xb1 & Heq & Hwf1 & Hw & _).
  rewrite Heq in Ha. unfold defer in Ha.
  destruct (awaitResponse _ _ _ xb1) as [a s1|p|s1] eqn:Hr; [|done..].
  injection Ha as -> <-.
  pose proof (awaitResponse_stable _ _ _ _ _ _ Hr) as Hst.
  split; [destruct Hst; cbn; by rewrite st_writes0, Hw|].
  split; [|by eapply unregisterListener_stable_wf].
  intros ->. apply awaitResponse_too_long in Hr.
  revert Hr. unfold nextAnswer.
  by destruct (wscript (port xb)) as [|[c|] ?].
Qed.

(** X18.  [SetLinkKey] accepts a key of exactly 16 bytes.  Any other
    length is refused with the size in bits before anything happens: no
    frame id is taken and nothing is written.  A key of 16 bytes is sent as
    the value of a [KY] request. *)
Theorem SetLinkKey_length key xb :
  wf xb →
  (length key ≠ 16%nat →
   SetLinkKey key xb
   = Done (Some (ErrKeySize (Z.of_nat (length key) * 8))) xb) ∧
  (length key = 16%nat →
   ∀ err xb', SetLinkKey key xb = Done err xb' →
     writes (port xb')
     = writes (port xb)
         ++ [frame (frameATCommand :: nextID (frameID xb) :: 75 :: 89
                      :: key)]).
Proof.
  intros Hwf. unfold SetLinkKey. split; intros Hlen.
  - by rewrite decide_True.
  - rewrite decide_False by (intros H; by apply H). run.
    intros err xb'.
    destruct (atCommand atLinkKey key xb) as [[b e] s| |] eqn:Ha; [|done..].
    intros [= <- <-].
    by apply atCommand_done in Ha as (_ & Hw & _); [|done|lia].
Qed.

(** X19.  [SetNetworkEncryptionKey] sends a key of 16 bytes as it is and
    replaces an empty key by 16 zero bytes (which makes the module choose a
    random key); a key of any other length is refused before anything
    happens, with the size in bits. *)
Theorem SetNetworkEncryptionKey_cases key xb :
  wf xb →
  (length key ≠ 0%nat → length key ≠ 16%nat →
   SetNetworkEncryptionKey key xb
   = Done (Some (ErrKeySize (Z.of_nat (length key) * 8))) xb) ∧
  (length key = 0%nat ∨ length key = 16%nat →
   ∀ err xb', SetNetworkEncryptionKey key xb = Done err xb' →
     writes (port xb')
     = writes (port xb)
         ++ [frame (frameATCommand :: nextID (frameID xb) :: 78 :: 75
                      :: if decide (key = []) then replicate 16 0 else key)]).
Proof.
  intros Hwf. unfold SetNetworkEncryptionKey. split.
  - intros H0 H16. rewrite decide_False by done. by rewrite decide_True.
  - intros [H0|H16] err xb'.
    + rewrite decide_True by done.
      assert (key = []) as -> by by destruct key.
      rewrite decide_True by done. run.
      destruct (atCommand _ _ xb) as [[b e] s| |] eqn:Ha; [|done..].
      intros [= <- <-].
      by apply atCommand_done in Ha as (_ & Hw & _); [|done|cbn; lia].
    + rewrite decide_False by lia.
      rewrite decide_False by (intros H; by apply H).
      rewrite (decide_False (P := key = [])) by (intros ->; done). run.
      destruct (atCommand _ _ xb) as [[b e] s| |] eqn:Ha; [|done..].
      intros [= <- <-].
      by apply atCommand_done in Ha as (_ & Hw & _); [|done|lia].
Qed.

(** X20.  [FirmwareVersion] and [HardwareVersion] never index past the
    data: an accepted request that the module answers with status OK gives
    the 16-bit number that two bytes of data spell, and an error that tells
    the length for data of any other length. *)
Theorem version_reply xb data rest :
  wf xb → nextAnswer xb = None →
  bytes data → Z.of_nat (length data) + 5 ≤ 65535 →
  (inbound (port xb)
     = response (nextID (frameID xb)) atFirmwareVersion CSOK data ++ rest →
   ∃ xb',
     FirmwareVersion xb
     = Done (if decide (length data = 2%nat) then (beValue data, None)
             else (0, Some (ErrFirmwareVersionSize (Z.of_nat (length data)))))
            xb') ∧
  (inbound (port xb)
     = response (nextID (frameID xb)) atHardwareVersion CSOK data ++ rest →
   ∃ xb',
     HardwareVersion xb
     = Done (if decide (length data = 2%nat) then (beValue data, None)
             else (0, Some (ErrHardwareVersionSize (Z.of_nat (length data)))))
            xb').
Proof.
  intros Hwf Hans Hb Hlen. split; intros Hin.
  - destruct (atCommand_ok atFirmwareVersion [] xb data rest)
      as (xb' & H & _); try done; [cbn; lia..|].
    exists xb'. unfold FirmwareVersion. run. rewrite H. cbv beta iota.
    destruct (decide (length data = 2%nat)) as [H2|H2].
    + rewrite decide_False by (intros H'; by apply H').
      destruct data as [|b0 [|b1 [|? ?]]]; try done.
      apply Forall_cons in Hb as [H0 Hb]. apply Forall_cons in Hb as [H1 _].
      cbn. rewrite be16_join by done. unfold beValue. cbn. do 2 f_equal.
    + by rewrite decide_True.
  - destruct (atCommand_ok atHardwareVersion [] xb data rest)
      as (xb' & H & _); try done; [cbn; lia..|].
    exists xb'. unfold HardwareVersion. run. rewrite H. cbv beta iota.
    destruct (decide (length data = 2%nat)) as [H2|H2].
    + rewrite decide_False by (intros H'; by apply H').
      destruct data as [|b0 [|b1 [|? ?]]]; try done.
      apply Forall_cons in Hb as [H0 Hb]. apply Forall_cons in Hb as [H1 _].
      cbn. rewrite be16_join by done. unfold beValue. cbn. do 2 f_equal.
    + by rewrite decide_True.
Qed.

(** X21.  [EncryptionEnabled] and [APIEnabled] read the first byte of the
    data of an OK response.  The first guards the index with the length and
    answers false for a response without data; the second does not, and
    panics with an index out of range on a response without data even though
    the exchange succeeded. *)
Theorem first_byte_reply xb data rest :
  wf xb → nextAnswer xb = None →
  Z.of_nat (length data) + 5 ≤ 65535 →
  (inbound (port xb)
     = response (nextID (frameID xb)) atEncryptionEnabled CSOK data ++ rest →
   ∃ xb',
     EncryptionEnabled xb
     = Done (match data with
             | [] => false
             | b0 :: _ => bool_decide (b0 ≠ 0)
             end, None) xb') ∧
  (inbound (port xb)
     = response (nextID (frameID xb)) atAPIEnable CSOK data ++ rest →
   match data with
   | [] => APIEnabled xb = Panic IndexOutOfRange
   | b0 :: _ => ∃ xb', APIEnabled xb = Done (bool_decide (b0 = 2), None) xb'
   end).
Proof.
  intros Hwf Hans Hlen. split; intros Hin.
  - destruct (atCommand_ok atEncryptionEnabled [] xb data rest)
      as (xb' & H & _); try done; [cbn; lia..|].
    exists xb'. unfold EncryptionEnabled. run. rewrite H. cbv beta iota.
    by destruct data.
  - destruct (atCommand_ok atAPIEnable [] xb data rest)
      as (xb' & H & _); try done; [cbn; lia..|].
    unfold APIEnabled. run. rewrite H. cbv beta iota.
    destruct data; [done|]. by eauto.
Qed.

End typed_properties.

Section records.

Lemma IndexByte_app (l r : list Z) c :
  Forall (λ b, b ≠ c) l → IndexByte (l ++ c :: r) c = Some (length l).
Proof.
  unfold IndexByte. induction l as [|a l IH]; intros Hl.
  - cbn. by rewrite decide_True.
  - apply Forall_cons in Hl as [Ha Hl]. specialize (IH Hl). cbn.
    rewrite decide_False by done.
    destruct (list_find _ (l ++ c :: r)) as [[i x]|]; cbn in *; [|done].
    by injection IH as ->.
Qed.

Lemma parseNode_record nodes s0 s1 n extra :
  nodeValid n →
  parseNode nodes (nodeRecord [s0; s1] n extra) = Next n.
Proof.
  intros [Hs Hid Hp Hpr Hm]. destruct n as [ser nid par ty st pr mf].
  cbn [SerialNumber_ NodeID ParentNetworkAddress DeviceType Status ProfileID
       ManufacturerID] in *.
  unfold parseNode, nodeRecord.
  cbn [SerialNumber_ NodeID ParentNetworkAddress DeviceType Status ProfileID
       ManufacturerID app].
  rewrite decide_False by (cbn; rewrite length_app; cbn; lia).
  cbn [drop take]. rewrite !drop_0.
  rewrite IndexByte_app by done.
  rewrite take_app_length.
  replace (length nid + 1)%nat with (length (nid ++ [0]))
    by (rewrite length_app; cbn; lia).
  change (nid ++ 0 :: ?t) with (nid ++ [0] ++ t).
  rewrite (app_assoc nid [0]), drop_app_length.
  cbn [app lookup list_lookup mbind option_bind].
  rewrite decodeUint_be64 by done.
  rewrite !be16_join by apply u8_range.
  by rewrite <- !be16_split by done.
Qed.

(** X22.  [NodeDiscover] reads a well-formed record back field by field.
    Of a record made of two bytes that it skips, the serial number
    big-endian, the identifier with its NUL, and the eight bytes of parent
    address, device type, status, profile and manufacturer, it makes the node
    with these fields; bytes that follow the record are ignored. *)
Theorem parseNode_reads_record nodes skip n extra :
  length skip = 2%nat → nodeValid n →
  parseNode nodes (nodeRecord skip n extra) = Next n.
Proof.
  intros Hskip Hn. destruct skip as [|s0 [|s1 [|? ?]]]; try done.
  by apply parseNode_record.
Qed.

(** X23.  The record part of [ActiveScan] cannot panic: the check for 16
    bytes covers every index it reads.  Data of fewer than 16 bytes end the
    call with the devices found so far and an error, and any longer data give
    a device. *)
Theorem parseScan_never_panics devices data :
  (∀ p, parseScan devices data ≠ Crash p) ∧
  ((length data < 16)%nat →
   parseScan devices data
   = Return devices (ErrScanFrameShort (Z.of_nat (length data)))) ∧
  ((16 ≤ length data)%nat → ∃ d, parseScan devices data = Next d).
Proof.
  unfold parseScan.
  destruct (decide (length data < 16)%nat) as [Hs|Hl].
  - repeat split; try done. lia.
  - assert (∃ d, match
              ty ← data !! 0%nat; chn ← data !! 1%nat;
              aj ← data !! 12%nat; sp ← data !! 13%nat;
              lqi ← data !! 14%nat; rssi ← data !! 15%nat;
              Some (mkActiveScanDevice ty chn
                      (u16 (decodeUint (take 2 (drop 2 data))))
                      (decodeUint (take 8 (drop 4 data)))
                      (bool_decide (aj ≠ 0)) sp lqi (int8_of_byte rssi))
            with
            | Some d => Next d
            | None => Crash IndexOutOfRange
            end = Next d) as [d Hd].
    { do 16 (destruct data as [|? data]; [cbn in Hl; lia|]).
      cbn. by eauto. }
    rewrite Hd. split; [done|]. split; [lia|by eauto].
Qed.

End records.

Section gathering_runs.







End gathering_runs.

Section reader_examples.

Lemma readLoop_skips_noise_witness :
  readLoop (fresh ([0; 0x13] ++ frame [frameModemStatus; 2]))
  = readLoop (resynced [0; 0x13] (frame [frameModemStatus; 2])
                (fresh ([0; 0x13] ++ frame [frameModemStatus; 2]))).
Proof.
  apply readLoop_skips_noise; [|reflexivity].
  repeat constructor; discriminate.
Defined.

(** Two stray bytes, then a modem status: two log lines, and the event. *)
Lemma readLoop_noise_run :
  diag (final (readLoop (fresh ([0; 0x13] ++ frame [frameModemStatus; 2]))))
  = [LogResync 0; LogResync 0x13] ∧
  eventCh (final (readLoop (fresh ([0; 0x13] ++ frame [frameModemStatus; 2]))))
  = [ModemStatus 2].
Proof. split; vm_compute; reflexivity. Qed.

Lemma reader_drops_bad_checksum_witness :
  readIteration (fresh (wire [frameModemStatus; 2] 0 ++ [1]))
  = Done None
      (log (LogBadChecksum (u8 (sum8 [frameModemStatus; 2] + 0)))
         (set_inbound [1] (fresh (wire [frameModemStatus; 2] 0 ++ [1])))).
Proof.
  apply reader_drops_bad_checksum.
  - cbn. lia.
  - unfold is_byte. lia.
  - vm_compute. discriminate.
  - reflexivity.
Defined.

Lemma reader_detects_corrupt_byte_witness :
  ∃ c, c ≠ 0xff ∧
       readIteration
         (fresh (wire (<[1%nat := 6]> [frameModemStatus; 2%Z])
                   (u8 (0xff - sum8 [frameModemStatus; 2])) ++ []))
       = Done None
           (log (LogBadChecksum c)
              (set_inbound []
                 (fresh (wire (<[1%nat := 6]> [frameModemStatus; 2%Z])
                           (u8 (0xff - sum8 [frameModemStatus; 2])) ++ [])))).
Proof.
  apply (reader_detects_corrupt_byte _ [frameModemStatus; 2] 1 2 6 []).
  - cbn. lia.
  - reflexivity.
  - unfold is_byte. lia.
  - unfold is_byte. lia.
  - discriminate.
  - reflexivity.
Defined.

Lemma reader_index_panic_iff_witness :
  (readIteration (fresh (frame [frameModemStatus; 2] ++ []))
   = Panic IndexOutOfRange
   ↔ (length [frameModemStatus; 2%Z] < headerLen frameModemStatus)%nat) ∧
  ((headerLen frameModemStatus ≤ length [frameModemStatus; 2%Z])%nat →
   ∃ xb', readIteration (fresh (frame [frameModemStatus; 2] ++ []))
          = Done None xb' ∧ inbound (port xb') = []).
Proof.
  apply (reader_index_panic_iff _ [frameModemStatus; 2] [] frameModemStatus).
  - apply fresh_wf.
  - reflexivity.
  - cbn. lia.
  - reflexivity.
  - reflexivity.
Defined.

Lemma reader_after_Close_witness :
  readIteration (Close (fresh (frame [frameModemStatus; 2] ++ [])))
  = Panic SendOnClosedChannel.
Proof.
  destruct (reader_after_Close (fresh (frame [frameModemStatus; 2] ++ []))
              [frameModemStatus; 2] [] 0 (ModemStatus 2)) as [H _].
  - apply fresh_wf.
  - cbn. lia.
  - reflexivity.
  - vm_compute. reflexivity.
  - apply H. by left.
Defined.

Lemma decodeUint_big_endian_witness :
  decodeUint nineBytes = beValue nineBytes mod 2 ^ 64 ∧
  ((length nineBytes ≤ 8)%nat → decodeUint nineBytes = beValue nineBytes) ∧
  decodeUint nineBytes = decodeUint (drop (length nineBytes - 8) nineBytes).
Proof.
  apply decodeUint_big_endian.
  repeat constructor; unfold is_byte; lia.
Defined.

(** Nine bytes: the first is lost. *)
Lemma decodeUint_nine_bytes :
  decodeUint nineBytes = 0x0203040506070809.
Proof. vm_compute. reflexivity. Qed.

End reader_examples.

Section typed_examples.

Lemma address_loopback_witness :
  (∃ xb',
     Transmit 0x0013A20040A1B2C3 0xFFFE 0 0 [0x68; 0x69] (fresh [])
     = Done (nextAnswer (fresh [])) xb'
     ∧ writes (port xb')
         = writes (port (fresh []))
             ++ [frame (frameZigBeeTransmitRequest
                          :: nextID (frameID (fresh []))
                          :: addressBytes 0x0013A20040A1B2C3 0xFFFE
                          ++ 0 :: 0 :: [0x68; 0x69])]) ∧
  classify (frameZigBeeReceivePacket
              :: addressBytes 0x0013A20040A1B2C3 0xFFFE ++ 1 :: [0x68])
  = Some (0, ReceivePacketEv
               (mkReceivePacket 0x0013A20040A1B2C3 0xFFFE 1 [0x68])).
Proof.
  apply address_loopback.
  - apply fresh_wf.
  - split; by vm_compute.
  - split; by vm_compute.
  - cbn. lia.
Defined.

Lemma Transmit_status_unclaimed_witness :
  ∃ xb2,
    readIteration
      (final (Transmit 0 0xFFFE 0 0 [0x68; 0x69] (fresh statusFrame)))
    = Done None xb2
    ∧ toGlobal
        (TransmitStatusEv (mkTransmitStatus (0x12 * 256 + 0x34) 0 0 0))
        (final (Transmit 0 0xFFFE 0 0 [0x68; 0x69] (fresh statusFrame))) xb2
    ∧ inbound (port xb2) = [].
Proof.
  apply (Transmit_status_unclaimed (fresh statusFrame) 0 0xFFFE 0 0
           [0x68; 0x69] None _ 0x12 0x34 0 0 0 []).
  - apply fresh_wf.
  - cbn. lia.
  - reflexivity.
  - reflexivity.
  - unfold is_byte. lia.
  - unfold is_byte. lia.
  - reflexivity.
  - apply value_final. vm_compute. reflexivity.
Defined.

Lemma ExtendedPANID_round_trip_witness :
  ∃ val,
    length val = 8%nat ∧ decodeUint val = 0x0123456789ABCDEF ∧
    writes (port (final (SetExtendedPANID 0x0123456789ABCDEF
                           (fresh (response 1 atExtendedPANID CSOK [])))))
    = writes (port (fresh (response 1 atExtendedPANID CSOK [])))
        ++ [frame (frameATCommand
                     :: nextID (frameID
                                  (fresh (response 1 atExtendedPANID CSOK [])))
                     :: 73 :: 68 :: val)] ∧
    ∀ xb2 rest,
      wf xb2 → nextAnswer xb2 = None →
      inbound (port xb2)
        = response (nextID (frameID xb2)) atExtendedPANID CSOK val ++ rest →
      ∃ xb3, ExtendedPANID xb2 = Done (0x0123456789ABCDEF, None) xb3.
Proof.
  apply (ExtendedPANID_round_trip 0x0123456789ABCDEF
           (fresh (response 1 atExtendedPANID CSOK [])) None).
  - apply fresh_wf.
  - split; by vm_compute.
  - apply value_final. vm_compute. reflexivity.
Defined.

(** The identifier is set and read back. *)
Lemma ExtendedPANID_run :
  written (SetExtendedPANID 0x0123456789ABCDEF
             (fresh (response 1 atExtendedPANID CSOK [])))
  = [[0x7E; 0x00; 0x0C; 0x08; 0x01; 0x49; 0x44;
      0x01; 0x23; 0x45; 0x67; 0x89; 0xAB; 0xCD; 0xEF; 0xA9]] ∧
  value (ExtendedPANID
           (fresh (response 1 atExtendedPANID CSOK
                     [0x01; 0x23; 0x45; 0x67; 0x89; 0xAB; 0xCD; 0xEF])))
  = Some (0x0123456789ABCDEF, None).
Proof. split; vm_compute; reflexivity. Qed.

Lemma InterfaceDataRate_round_trip_witness :
  ∃ val,
    length val = 4%nat ∧
    writes (port (final (SetInterfaceDataRate 9600
                           (fresh (response 1 atInterfaceDataRate CSOK [])))))
    = writes (port (fresh (response 1 atInterfaceDataRate CSOK [])))
        ++ [frame (frameATCommand
                     :: nextID (frameID
                                  (fresh (response 1 atInterfaceDataRate
                                            CSOK [])))
                     :: 66 :: 68 :: val)] ∧
    ∀ xb2 rest,
      wf xb2 → nextAnswer xb2 = None →
      inbound (port xb2)
        = response (nextID (frameID xb2)) atInterfaceDataRate CSOK val
            ++ rest →
      ∃ r xb3,
        InterfaceDataRate xb2 = Done (r, None) xb3 ∧
        (9600 ∈ standardDataRates ∨ 7 < 9600 < 2 ^ 32 → r = 9600) ∧
        (0 ≤ 9600 ≤ 7 →
         standardDataRates !! Z.to_nat 9600 = Some r ∧ r ≠ 9600).
Proof.
  apply (InterfaceDataRate_round_trip 9600
           (fresh (response 1 atInterfaceDataRate CSOK [])) None).
  - apply fresh_wf.
  - apply value_final. vm_compute. reflexivity.
Defined.

(** 9600 baud goes out as the index 3, 900 baud as it is, and 5 baud as 5,
    which the module takes for the index of 38400 baud. *)
Lemma SetInterfaceDataRate_run :
  written (SetInterfaceDataRate 9600 (fresh []))
  = [[0x7E; 0x00; 0x08; 0x08; 0x01; 0x42; 0x44; 0; 0; 0; 3; 0x6D]] ∧
  written (SetInterfaceDataRate 900 (fresh []))
  = [[0x7E; 0x00; 0x08; 0x08; 0x01; 0x42; 0x44; 0; 0; 3; 0x84; 0xE9]] ∧
  written (SetInterfaceDataRate 5 (fresh []))
  = [[0x7E; 0x00; 0x08; 0x08; 0x01; 0x42; 0x44; 0; 0; 0; 5; 0x6B]] ∧
  value (InterfaceDataRate
           (fresh (response 1 atInterfaceDataRate CSOK [0; 0; 0; 5])))
  = Some (38400, None).
Proof. repeat split; vm_compute; reflexivity. Qed.

Lemma SetNodeIdentifier_truncates_witness :
  writes (port (final (SetNodeIdentifier (replicate 25 65)
                         (fresh (response 1 atNodeIdentifier CSOK [])))))
  = writes (port (fresh (response 1 atNodeIdentifier CSOK [])))
      ++ [frame (frameATCommand
                   :: nextID (frameID
                                (fresh (response 1 atNodeIdentifier CSOK [])))
                   :: 78 :: 73 :: take 20 (replicate 25 65))]
  ∧ None ≠ Some (ErrValueTooLong (Z.of_nat (length (replicate 25 65))))
  ∧ wf (final (SetNodeIdentifier (replicate 25 65)
                 (fresh (response 1 atNodeIdentifier CSOK [])))).
Proof.
  apply (SetNodeIdentifier_truncates (replicate 25 65)
           (fresh (response 1 atNodeIdentifier CSOK [])) None).
  - apply fresh_wf.
  - apply value_final. vm_compute. reflexivity.
Defined.

Lemma SetLinkKey_length_witness :
  SetLinkKey [1; 2; 3] (fresh [])
  = Done (Some (ErrKeySize (Z.of_nat (length [1; 2; 3]) * 8))) (fresh []).
Proof.
  destruct (SetLinkKey_length [1; 2; 3] (fresh []) (fresh_wf _)) as [H _].
  apply H. cbn. lia.
Defined.

Lemma SetNetworkEncryptionKey_cases_witness :
  writes (port (final (SetNetworkEncryptionKey []
                         (fresh (response 1 atNetworkEncryptionKey CSOK [])))))
  = writes (port (fresh (response 1 atNetworkEncryptionKey CSOK [])))
      ++ [frame (frameATCommand
                   :: nextID (frameID
                                (fresh (response 1 atNetworkEncryptionKey
                                          CSOK [])))
                   :: 78 :: 75
                   :: if decide (@nil Z = []) then replicate 16 0 else [])].
Proof.
  destruct (SetNetworkEncryptionKey_cases []
              (fresh (response 1 atNetworkEncryptionKey CSOK []))
              (fresh_wf _)) as [_ H].
  apply (H ltac:(by left) None). apply value_final. vm_compute. reflexivity.
Defined.

(** An empty network key goes out as sixteen zero bytes. *)
Lemma SetNetworkEncryptionKey_run :
  written (SetNetworkEncryptionKey []
             (fresh (response 1 atNetworkEncryptionKey CSOK [])))
  = [[0x7E; 0x00; 0x14; 0x08; 0x01; 0x4E; 0x4B] ++ replicate 16 0 ++ [0x5D]] ∧
  value (SetNetworkEncryptionKey []
           (fresh (response 1 atNetworkEncryptionKey CSOK [])))
  = Some None ∧
  value (SetNetworkEncryptionKey [1; 2; 3] (fresh []))
  = Some (Some (ErrKeySize 24)).
Proof. repeat split; vm_compute; reflexivity. Qed.

Lemma version_reply_witness :
  ∃ xb',
    FirmwareVersion (fresh (response 1 atFirmwareVersion CSOK [0x21; 0xA7]))
    = Done (if decide (length [0x21; 0xA7] = 2%nat)
            then (beValue [0x21; 0xA7], None)
            else (0, Some (ErrFirmwareVersionSize
                             (Z.of_nat (length [0x21; 0xA7]))))) xb'.
Proof.
  destruct (version_reply
              (fresh (response 1 atFirmwareVersion CSOK [0x21; 0xA7]))
              [0x21; 0xA7] []) as [H _].
  - apply fresh_wf.
  - reflexivity.
  - repeat constructor; unfold is_byte; lia.
  - cbn. lia.
  - apply H. reflexivity.
Defined.

(** The firmware version 21A7, and a response of three bytes. *)
Lemma FirmwareVersion_run :
  value (FirmwareVersion
           (fresh (response 1 atFirmwareVersion CSOK [0x21; 0xA7])))
  = Some (0x21A7, None) ∧
  value (FirmwareVersion
           (fresh (response 1 atFirmwareVersion CSOK [0x21; 0xA7; 0])))
  = Some (0, Some (ErrFirmwareVersionSize 3)).
Proof. split; vm_compute; reflexivity. Qed.

Lemma first_byte_reply_witness :
  APIEnabled (fresh (response 1 atAPIEnable CSOK [])) = Panic IndexOutOfRange.
Proof.
  destruct (first_byte_reply (fresh (response 1 atAPIEnable CSOK [])) [] [])
    as [_ H].
  - apply fresh_wf.
  - reflexivity.
  - cbn. lia.
  - apply H. reflexivity.
Defined.

(** The same response without data, to the two queries. *)
Lemma first_byte_run :
  value (EncryptionEnabled (fresh (response 1 atEncryptionEnabled CSOK [])))
  = Some (false, None) ∧
  value (EncryptionEnabled (fresh (response 1 atEncryptionEnabled CSOK [1])))
  = Some (true, None) ∧
  value (APIEnabled (fresh (response 1 atAPIEnable CSOK [2])))
  = Some (true, None).
Proof. repeat split; vm_compute; reflexivity. Qed.

End typed_examples.

Section record_examples.

Lemma sampleNode_valid : nodeValid sampleNode.
Proof.
  split; cbn; try (split; by vm_compute).
  repeat constructor. discriminate.
Qed.

Lemma parseNode_reads_record_witness :
  parseNode [] (nodeRecord [0x12; 0x34] sampleNode [0xEE]) = Next sampleNode.
Proof.
  apply parseNode_reads_record; [reflexivity|apply sampleNode_valid].
Defined.

(** The record of [sampleNode] is the sample record. *)
Lemma nodeRecord_sample : nodeRecord [0x12; 0x34] sampleNode [] = nodeData.
Proof. vm_compute. reflexivity. Qed.


End record_examples.

Section queries.

Lemma lor_u32_byte v b :
  is_byte b →
  Z.lor (u32 (Z.shiftl v 8)) b = (v mod 2 ^ 24) * 2 ^ 8 + b.
Proof.
  intros Hb. unfold u32. rewrite Z.shiftl_mul_pow2 by lia.
  change (2 ^ 32) with (2 ^ 24 * 2 ^ 8).
  rewrite Z.mul_mod_distr_r by lia.
  rewrite <- (Z.shiftl_mul_pow2 _ 8) by lia.
  rewrite lor_shiftl_low; [by rewrite Z.shiftl_mul_pow2|lia|apply Hb].
Qed.

Lemma deviceType_fold b : ∀ v,
  bytes b →
  fold_left (λ did b, Z.lor (u32 (Z.shiftl did 8)) b) b (v mod 2 ^ 32)
  = fold_left (λ v x, v * 256 + x) b v mod 2 ^ 32.
Proof.
  induction b as [|x b IH]; intros v Hb; [done|].
  apply Forall_cons in Hb as [Hx Hb]. cbn [fold_left].
  replace (Z.lor (u32 (Z.shiftl (v mod 2 ^ 32) 8)) x)
    with ((v * 256 + x) mod 2 ^ 32); [by apply IH|].
  rewrite lor_u32_byte by done. unfold is_byte in Hx.
  change (2 ^ 32) with 4294967296. change (2 ^ 24) with 16777216.
  change (2 ^ 8) with 256. Z.div_mod_to_equations. lia.
Qed.

Lemma deviceType_value b :
  bytes b →
  fold_left (λ did b, Z.lor (u32 (Z.shiftl did 8)) b) b 0
  = beValue b mod 2 ^ 32.
Proof. intros Hb. exact (deviceType_fold b 0 Hb). Qed.

Lemma beValue_small b :
  bytes b → (length b ≤ 7)%nat → 0 ≤ beValue b < 2 ^ 56.
Proof.
  intros Hb Hlen. pose proof (beValue_range b Hb) as Hr.
  assert (256 ^ Z.of_nat (length b) ≤ 256 ^ 7)
    by (apply Z.pow_le_mono_r; lia).
  change (2 ^ 56) with (256 ^ 7). lia.
Qed.

Lemma int_of_decodeUint b :
  bytes b → (length b ≤ 7)%nat → int_of_u64 (decodeUint b) = beValue b.
Proof.
  intros Hb Hlen. pose proof (beValue_small b Hb Hlen) as Hr.
  rewrite decodeUint_beValue by done.
  change (2 ^ 56) with 72057594037927936 in Hr.
  rewrite Z.mod_small by (change (2 ^ 64) with 18446744073709551616; lia).
  unfold int_of_u64. rewrite decide_True; [done|].
  change (2 ^ 63) with 9223372036854775808. lia.
Qed.

(** X25.  The queries that return a number read the data of the response
    as a big-endian number.  For an accepted request that the module answers
    with status OK and up to 7 bytes of data, [AssociationIndication],
    [MaximumRFPayloadBytes], [EncryptionOptions], [NodeDiscoveryOptions] and
    [OperatingExtendedPANID] return the number that the bytes spell,
    [DeviceTypeIdentifier] returns its low 32 bits, and [NodeIdentifier]
    returns the bytes themselves. *)
Theorem query_replies xb data rest :
  wf xb → nextAnswer xb = None →
  bytes data → (length data ≤ 7)%nat →
  (∀ cmd, inbound (port xb)
          = response (nextID (frameID xb)) cmd CSOK data ++ rest →
     (cmd = atAssociationIndication →
      ∃ xb', AssociationIndication xb = Done (beValue data, None) xb') ∧
     (cmd = atMaximumRFPayloadBytes →
      ∃ xb', MaximumRFPayloadBytes xb = Done (beValue data, None) xb') ∧
     (cmd = atEncryptionOptions →
      ∃ xb', EncryptionOptions xb = Done (beValue data, None) xb') ∧
     (cmd = atNodeDiscoveryOptions →
      ∃ xb', NodeDiscoveryOptions xb = Done (beValue data, None) xb') ∧
     (cmd = atOperatingExtendedPANID →
      ∃ xb', OperatingExtendedPANID xb = Done (beValue data, None) xb') ∧
     (cmd = atDeviceTypeIdentifier →
      ∃ xb', DeviceTypeIdentifier xb
             = Done (beValue data mod 2 ^ 32, None) xb') ∧
     (cmd = atNodeIdentifier →
      ∃ xb', NodeIdentifier xb = Done (data, None) xb')).
Proof.
  intros Hwf Hans Hb Hlen cmd Hin.
  assert (Z.of_nat (length data) + 5 ≤ 65535) as Hl by lia.
  pose proof (int_of_decodeUint data Hb Hlen) as Hint.
  pose proof (beValue_small data Hb Hlen) as Hr.
  repeat split; intros ->.
  - destruct (atCommand_ok atAssociationIndication [] xb data rest)
      as (xb' & H & _); try done; [cbn; lia..|].
    exists xb'. unfold AssociationIndication. run. rewrite H. cbv beta iota.
    by rewrite Hint.
  - destruct (atCommand_ok atMaximumRFPayloadBytes [] xb data rest)
      as (xb' & H & _); try done; [cbn; lia..|].
    exists xb'. unfold MaximumRFPayloadBytes. run. rewrite H. cbv beta iota.
    by rewrite Hint.
  - destruct (atCommand_ok atEncryptionOptions [] xb data rest)
      as (xb' & H & _); try done; [cbn; lia..|].
    exists xb'. unfold EncryptionOptions. run. rewrite H. cbv beta iota.
    by rewrite Hint.
  - destruct (atCommand_ok atNodeDiscoveryOptions [] xb data rest)
      as (xb' & H & _); try done; [cbn; lia..|].
    exists xb'. unfold NodeDiscoveryOptions. run. rewrite H. cbv beta iota.
    by rewrite Hint.
  - destruct (atCommand_ok atOperatingExtendedPANID [] xb data rest)
      as (xb' & H & _); try done; [cbn; lia..|].
    exists xb'. unfold OperatingExtendedPANID. run. rewrite H.
    cbv beta iota. rewrite decodeUint_beValue by done.
    rewrite Z.mod_small; [done|].
    change (2 ^ 56) with 72057594037927936 in Hr.
    change (2 ^ 64) with 18446744073709551616. lia.
  - destruct (atCommand_ok atDeviceTypeIdentifier [] xb data rest)
      as (xb' & H & _); try done; [cbn; lia..|].
    exists xb'. unfold DeviceTypeIdentifier. run. rewrite H. cbv beta iota.
    by rewrite deviceType_value.
  - destruct (atCommand_ok atNodeIdentifier [] xb data rest)
      as (xb' & H & _); try done; [cbn; lia..|].
    exists xb'. by unfold NodeIdentifier.
Qed.

(** X26.  [NodeDiscoveryTimeout] turns the [NT] value, which counts tenths
    of a second, into nanoseconds: for a module that answers with up to 3
    bytes of data it returns one hundred million times the number that the
    bytes spell, without overflow. *)
Theorem NodeDiscoveryTimeout_reply xb data rest :
  wf xb → nextAnswer xb = None →
  bytes data → (length data ≤ 3)%nat →
  inbound (port xb)
    = response (nextID (frameID xb)) atNodeDiscoveryTimeout CSOK data
        ++ rest →
  ∃ xb',
    NodeDiscoveryTimeout xb = Done (beValue data * 100000000, None) xb'.
Proof.
  intros Hwf Hans Hb Hlen Hin.
  destruct (atCommand_ok atNodeDiscoveryTimeout [] xb data rest)
    as (xb' & H & _); try done; [cbn; lia..|].
  exists xb'. unfold NodeDiscoveryTimeout. run. rewrite H. cbv beta iota.
  rewrite int_of_decodeUint by (done || lia).
  pose proof (beValue_range data Hb) as Hr.
  assert (256 ^ Z.of_nat (length data) ≤ 256 ^ 3)
    by (apply Z.pow_le_mono_r; lia).
  change (256 ^ 3) with 16777216 in *.
  unfold int64.
  change (2 ^ 63) with 9223372036854775808.
  change (2 ^ 64) with 18446744073709551616.
  rewrite (Z.mod_small (beValue data * 100 + _)) by lia.
  replace (beValue data * 100 + 9223372036854775808 - 9223372036854775808)
    with (beValue data * 100) by lia.
  rewrite Z.mod_small by lia.
  do 2 f_equal. lia.
Qed.

(** X27.  The setters of a one-byte parameter send one byte of value:
    [SetEncryptionEnabled] sends 1 or 0, and [SetEncryptionOptions] and
    [SetNodeDiscoveryOptions] send the low 8 bits of the options, so that
    higher bits of the [int] are dropped without an error. *)
Theorem byte_setters_send_one_byte xb :
  wf xb →
  (∀ enabled err xb',
     SetEncryptionEnabled enabled xb = Done err xb' →
     writes (port xb')
     = writes (port xb)
         ++ [frame [frameATCommand; nextID (frameID xb); 69; 69;
                    if enabled then 1 else 0]]) ∧
  (∀ opt err xb',
     SetEncryptionOptions opt xb = Done err xb' →
     writes (port xb')
     = writes (port xb)
         ++ [frame [frameATCommand; nextID (frameID xb); 69; 79;
                    opt mod 256]]) ∧
  (∀ o err xb',
     SetNodeDiscoveryOptions o xb = Done err xb' →
     writes (port xb')
     = writes (port xb)
         ++ [frame [frameATCommand; nextID (frameID xb); 78; 79;
                    o mod 256]]).
Proof.
  intros Hwf. repeat split.
  - intros enabled err xb'. unfold SetEncryptionEnabled. run.
    destruct (atCommand _ _ xb) as [[b e] s| |] eqn:Ha; [|done..].
    intros [= <- <-].
    by apply atCommand_done in Ha as (_ & Hw & _); [|done|cbn; lia].
  - intros opt err xb'. unfold SetEncryptionOptions. run.
    destruct (atCommand _ _ xb) as [[b e] s| |] eqn:Ha; [|done..].
    intros [= <- <-].
    by apply atCommand_done in Ha as (_ & Hw & _); [|done|cbn; lia].
  - intros o err xb'. unfold SetNodeDiscoveryOptions. run.
    destruct (atCommand _ _ xb) as [[b e] s| |] eqn:Ha; [|done..].
    intros [= <- <-].
    by apply atCommand_done in Ha as (_ & Hw & _); [|done|cbn; lia].
Qed.

End queries.

Section query_examples.

Lemma query_replies_witness :
  ∃ xb',
    AssociationIndication (fresh (response 1 atAssociationIndication CSOK [0x23]))
    = Done (beValue [0x23], None) xb'.
Proof.
  destruct (query_replies
              (fresh (response 1 atAssociationIndication CSOK [0x23]))
              [0x23] []) with (cmd := atAssociationIndication) as [H _].
  - apply fresh_wf.
  - reflexivity.
  - repeat constructor; unfold is_byte; lia.
  - cbn. lia.
  - reflexivity.
  - by apply H.
Defined.

(** A device type of five bytes loses the first, and an association
    indication of one byte is that byte. *)
Lemma query_run :
  value (DeviceTypeIdentifier
           (fresh (response 1 atDeviceTypeIdentifier CSOK [1; 0; 3; 0; 0])))
  = Some (0x00030000, None) ∧
  value (AssociationIndication
           (fresh (response 1 atAssociationIndication CSOK [0x23])))
  = Some (0x23, None).
Proof. split; vm_compute; reflexivity. Qed.

Lemma NodeDiscoveryTimeout_reply_witness :
  ∃ xb',
    NodeDiscoveryTimeout
      (fresh (response 1 atNodeDiscoveryTimeout CSOK [0x3C]))
    = Done (beValue [0x3C] * 100000000, None) xb'.
Proof.
  apply (NodeDiscoveryTimeout_reply _ [0x3C] []).
  - apply fresh_wf.
  - reflexivity.
  - repeat constructor; unfold is_byte; lia.
  - cbn. lia.
  - reflexivity.
Defined.

Lemma byte_setters_send_one_byte_witness :
  writes (port (final (SetEncryptionOptions 0x102
                         (fresh (response 1 atEncryptionOptions CSOK [])))))
  = writes (port (fresh (response 1 atEncryptionOptions CSOK [])))
      ++ [frame [frameATCommand;
                 nextID (frameID
                           (fresh (response 1 atEncryptionOptions CSOK [])));
                 69; 79; 0x102 mod 256]].
Proof.
  destruct (byte_setters_send_one_byte
              (fresh (response 1 atEncryptionOptions CSOK []))
              (fresh_wf _)) as (_ & H & _).
  apply (H 0x102 None). apply value_final. vm_compute. reflexivity.
Defined.

End query_examples.
